(** * convert_tlm_file.py: telemetry file to CSV conversion

    A shallow embedding of
    [cfe-eds-framework/tools/cFS-EDS-GroundStation/utils/convert_tlm_file.py]
    and the properties of its packet reader ([read_packet]), its object
    flattener ([tlm_display_string]), its hex dump ([hex_string]) and its
    driver ([main]).

    Conventions of the embedding:
    - a Python [bytes] value is a [list byte]; a Python [str] is a [string]
      (one [ascii] per character: the names and renderings handled here are
      ASCII text);
    - a binary file object is its content and a read position;
    - [print] appends one entry to a list of printed strings;
    - an operation that can raise returns [exn + _]. *)

From Stdlib Require Import String Ascii DecimalString List Arith Lia Bool NArith ZArith.
From Stdlib.Strings Require Import Byte.
From Stdlib Require DecimalNat.
From Equations Require Import Equations.
Import ListNotations.

Local Open Scope string_scope.
Local Open Scope list_scope.

(** ** Bytes and binary file objects *)

Abbreviation bytes := (list byte) (only parsing).

(** A file opened with mode ['rb']: the whole content and the position of
    the next byte to be read. *)
Record binary_file : Type := mk_file {
  content : bytes;
  pos : nat
}.

Definition remaining (f : binary_file) : bytes := skipn (pos f) (content f).

(** [file_object.read(size)] for [size >= 0]: at most [size] bytes from the
    current position, which advances by the number of bytes returned. *)
Definition read (f : binary_file) (size : nat) : bytes * binary_file :=
  let data := firstn size (remaining f) in
  (data, mk_file (content f) (pos f + length data)).

(** Facts about [read] needed for the termination of the packet loop. *)

Lemma remaining_read f size :
  remaining (snd (read f size)) = skipn size (remaining f).
Proof.
  unfold read, remaining; simpl.
  rewrite Nat.add_comm, <- skipn_skipn.
  set (r := skipn (pos f) (content f)).
  rewrite length_firstn.
  destruct (Nat.le_ge_cases size (length r)) as [H|H].
  - now rewrite Nat.min_l.
  - rewrite Nat.min_r by assumption.
    rewrite !skipn_all2; auto.
Qed.

Lemma read_data f size : fst (read f size) = firstn size (remaining f).
Proof. reflexivity. Qed.

Lemma read_nonempty_decreases f size b data f' :
  read f size = (b :: data, f') ->
  length (remaining f') < length (remaining f).
Proof.
  intros H.
  assert (Hf : f' = snd (read f size)) by now rewrite H.
  assert (Hd : b :: data = firstn size (remaining f))
    by now rewrite <- read_data, H.
  subst f'. rewrite remaining_read, length_skipn.
  destruct size as [|n]; [discriminate|].
  destruct (remaining f); [discriminate|]. simpl. lia.
Qed.

(** ** read_packet

    The generator
<<
    while True:
        packet = file_object.read(packet_length)
        if not packet:
            break
        yield packet
>>
    [next_packet] is one resumption of the generator: either it stops
    ([None]) or it yields a packet and is suspended with the file advanced.
    [read_packet] is the sequence of all the packets it yields. *)

Definition next_packet (f : binary_file) (packet_length : nat)
  : option (bytes * binary_file) :=
  let '(packet, f') := read f packet_length in
  match packet with
  | [] => None
  | _ :: _ => Some (packet, f')
  end.

Lemma next_packet_decreases f n packet f' :
  next_packet f n = Some (packet, f') ->
  length (remaining f') < length (remaining f).
Proof.
  unfold next_packet. destruct (read f n) as [p g] eqn:E.
  destruct p as [|b p]; [discriminate|].
  intros H; inversion H; subst.
  eapply read_nonempty_decreases; eauto.
Qed.

(** A value together with the equation that says what it is, so that the
    recursive call below knows which packet was read. *)
Definition inspect {A : Type} (a : A) : {b : A | a = b} := exist _ a eq_refl.

Equations? read_packet (file_object : binary_file) (packet_length : nat)
  : list bytes by wf (length (remaining file_object)) lt :=
  read_packet f n with inspect (next_packet f n) := {
    | exist _ None _ := [];
    | exist _ (Some (packet, f')) e := packet :: read_packet f' n }.
Proof. eapply next_packet_decreases; eauto. Qed.

(** The file after [k] consecutive reads of [size] bytes. *)
Fixpoint advance (f : binary_file) (size k : nat) : binary_file :=
  match k with
  | 0 => f
  | S k' => advance (snd (read f size)) size k'
  end.


(** ** Python values used by the module *)

Local Open Scope string_scope.

(** The exceptions that the modelled code can meet. [DecodeError] stands
    for whatever the external decoder raises on a packet it rejects. *)
Inductive exn : Type :=
| RuntimeError
| OSError
| IndexError
| ZeroDivisionError
| DecodeError.

(** [str(i)] for a non-negative integer. *)
Definition str_of_nat (i : nat) : string :=
  NilEmpty.string_of_uint (Nat.to_uint i).

Definition newline : string := String (ascii_of_nat 10) "".

(** ['{:<60}'.format(s)]: left-aligned in a field of 60 characters. *)
Fixpoint spaces (n : nat) : string :=
  match n with
  | 0 => ""
  | S n' => String " " (spaces n')
  end.

Definition ljust (width : nat) (s : string) : string :=
  s ++ spaces (width - String.length s).

(** [int.from_bytes(data, byteorder='big', signed=False)]. *)
Definition from_bytes_big (data : bytes) : N :=
  fold_left (fun acc b => (acc * 256 + Byte.to_N b)%N) data 0%N.

(** [bytes.hex()]: two lowercase hexadecimal digits per byte. *)
Definition hex_digit (d : N) : ascii :=
  if (d <? 10)%N then ascii_of_N (48 + d) else ascii_of_N (87 + d).

Fixpoint hex (data : bytes) : string :=
  match data with
  | [] => ""
  | b :: rest =>
      String (hex_digit (Byte.to_N b / 16))
        (String (hex_digit (Byte.to_N b mod 16)) (hex rest))
  end.

(** [c.upper()] for an ASCII character. *)
Definition upper (c : ascii) : ascii :=
  let n := nat_of_ascii c in
  if ((97 <=? n) && (n <=? 122))%nat then ascii_of_nat (n - 32) else c.

(** ** hex_string
<<
    hex_str = ''
    count = 0
    for i in range(0, len(string), 2):
        hex_str += "0x{}{} ".format(string[i].upper(), string[i+1].upper())
        count += 1
        if count % bytes_per_line == 0:
            hex_str += '\n'
    return hex_str
>>
    The loop walks the string two characters at a time; [string[i+1]] raises
    [IndexError] on a string of odd length, and [%] raises
    [ZeroDivisionError] when [bytes_per_line] is 0. Python's [%] on integers
    takes the sign of the divisor, as [Z.modulo] does. *)

Fixpoint hex_string_loop (string : string) (bytes_per_line count : Z)
    (hex_str : String.string) : exn + String.string :=
  match string with
  | "" => inr hex_str
  | String _ "" => inl IndexError
  | String c0 (String c1 rest) =>
      let hex_str := hex_str ++ "0x" ++ String (upper c0) (String (upper c1) " ") in
      let count := (count + 1)%Z in
      if (bytes_per_line =? 0)%Z then inl ZeroDivisionError
      else
        let hex_str :=
          if (count mod bytes_per_line =? 0)%Z then hex_str ++ newline
          else hex_str in
        hex_string_loop rest bytes_per_line count hex_str
  end.

Definition hex_string (string : string) (bytes_per_line : Z)
  : exn + String.string :=
  hex_string_loop string bytes_per_line 0%Z "".

(** ** The process state and its monad

    The driver and the flattener act on two file handles, on the text
    written to the CSV file and on the console. A computation either
    completes with a value or is aborted by an exception or by
    [sys.exit]. *)

Inductive handle : Type := Unopened | Opened | Closed.

Record world : Type := mk_world {
  fin_handle : handle;
  fout_handle : handle;
  fout_written : list string;   (* one entry per [fout.write] *)
  stdout : list string          (* one entry per [print] *)
}.

Definition initial_world : world := mk_world Unopened Unopened [] [].

Inductive abort : Type :=
| Raised (e : exn)
| SysExit (code : Z).

Definition M (A : Type) : Type := world -> (abort + A) * world.

Definition ret {A} (a : A) : M A := fun w => (inr a, w).

Definition bind {A B} (m : M A) (k : A -> M B) : M B :=
  fun w =>
    match m w with
    | (inl a, w') => (inl a, w')
    | (inr x, w') => k x w'
    end.

Notation "x <- m ;; k" := (bind m (fun x => k))
  (at level 61, m at next level, right associativity).
Notation "m ;;; k" := (bind m (fun _ => k))
  (at level 61, right associativity).

Definition raise {A} (e : exn) : M A := fun w => (inl (Raised e), w).

Definition sys_exit {A} (code : Z) : M A := fun w => (inl (SysExit code), w).

Definition print (s : string) : M unit :=
  fun w => (inr tt,
            mk_world (fin_handle w) (fout_handle w) (fout_written w)
                     (stdout w ++ [s])%list).

Definition fout_write (s : string) : M unit :=
  fun w => (inr tt,
            mk_world (fin_handle w) (fout_handle w) (fout_written w ++ [s])%list
                     (stdout w)).

Definition set_fin (h : handle) : M unit :=
  fun w => (inr tt, mk_world h (fout_handle w) (fout_written w) (stdout w)).

Definition set_fout (h : handle) : M unit :=
  fun w => (inr tt, mk_world (fin_handle w) h (fout_written w) (stdout w)).

Definition lift {A} (r : exn + A) : M A :=
  match r with
  | inl e => raise e
  | inr a => ret a
  end.

(** ** EDS objects and tlm_display_string *)

(** A decoded EDS object, as [tlm_display_string] sees it:
    [eds_db.IsArray] holds of an [Array], whose elements are indexed from 0;
    [eds_db.IsContainer] holds of a [Container], whose iteration gives the
    (name, member) pairs in order; anything else is formatted with [{}],
    and is represented by the text that formatting gives. *)
#[local] Unset Elimination Schemes.
Inductive EdsObject : Type :=
| Scalar (rendered : string)
| Array (elements : list EdsObject)
| Container (members : list (string * EdsObject)).
#[local] Set Elimination Schemes.

(** [f"{base_name}[{i}]"] and [f"{base_name}.{item[0]}"]. *)
Definition element_name (base_name : string) (i : nat) : string :=
  base_name ++ "[" ++ str_of_nat i ++ "]".

Definition member_name (base_name item0 : string) : string :=
  base_name ++ "." ++ item0.

(**
<<
    result = message
    if (eds_db.IsArray(base_object)):
        for i in range(len(base_object)):
            result = tlm_display_string(output_flag, eds_db, base_object[i],
                                        f"{base_name}[{i}]", result)
    elif (eds_db.IsContainer(base_object)):
        for item in base_object:
            result = tlm_display_string(output_flag, eds_db, item[1],
                                        f"{base_name}.{item[0]}", result)
    else:
        if output_flag == 'screen':
            result += '{:<60} = {}\n'.format(base_name, base_object)
        elif output_flag == 'labels':
            result += '{}, '.format(base_name)
        elif output_flag == 'values':
            result += '{}, '.format(base_object)
        else:
            print("Something went wrong in tlm_display_string")
            result = ''
    return result
>> *)
Fixpoint tlm_display_string (output_flag : string) (base_object : EdsObject)
    (base_name : string) (message : string) {struct base_object} : M string :=
  let result := message in
  match base_object with
  | Array elements =>
      (fix array_loop (rest : list EdsObject) (i : nat) (result : string)
         {struct rest} : M string :=
         match rest with
         | [] => ret result
         | element :: rest' =>
             result <- tlm_display_string output_flag element
                         (element_name base_name i) result ;;
             array_loop rest' (S i) result
         end) elements 0 result
  | Container members =>
      (fix container_loop (rest : list (string * EdsObject)) (result : string)
         {struct rest} : M string :=
         match rest with
         | [] => ret result
         | item :: rest' =>
             result <- tlm_display_string output_flag (snd item)
                         (member_name base_name (fst item)) result ;;
             container_loop rest' result
         end) members result
  | Scalar rendered =>
      if (output_flag =? "screen")%string then
        ret (result ++ ljust 60 base_name ++ " = " ++ rendered ++ newline)
      else if (output_flag =? "labels")%string then
        ret (result ++ base_name ++ ", ")
      else if (output_flag =? "values")%string then
        ret (result ++ rendered ++ ", ")
      else
        print "Something went wrong in tlm_display_string" ;;;
        ret ""
  end.

(** ** main

    The driver, from the point where the command line options have been
    read: [screen_flag] is set by [-s] and [filename] by [--file].
    Its collaborators are parameters:
    - [init_databases]: the outcome of [EdsLib.Database(mission)] and
      [CFE_MissionLib.Database(mission, eds_db)];
    - [open_source]: the outcome of [open(filename, 'rb')], the content of
      the file when it succeeds;
    - [open_destination]: the outcome of [open(csv_filename, 'w')];
      the destination is taken to be another file than the source, so
      that opening it leaves the content of the source as it is (when
      [csv_filename] is [filename] itself, opening it truncates the file
      being read, and what the reads then return depends on how much of
      it was buffered: that run is outside this description);
    - [decode_message]: for a packet, the exception raised or the pair of
      [eds_entry.Name] and [eds_object] (the topic id is not used). *)

Section Driver.

Variable init_databases : exn + unit.
Variable open_source : exn + bytes.
Variable open_destination : exn + unit.
Variable decode_message : bytes -> exn + (string * EdsObject).

(** The body of the [for packet in read_packet(fin, packet_length)] loop;
    the value returned is [labels_printed] after the iteration.
<<
        topic_id, eds_entry, eds_object = decode_message(mission, intf_db, packet)
        if not labels_printed:
            csv_string = tlm_display_string('labels', eds_db, eds_object, eds_entry.Name) + '\n'
            fout.write(csv_string)
            labels_printed = True
        csv_string = tlm_display_string('values', eds_db, eds_object, eds_entry.Name) + '\n'
        fout.write(csv_string)
        if screen_flag:
            print(hex_string(packet.hex(), 16))
            print(tlm_display_string('screen', eds_db, eds_object, eds_entry.Name))
>> *)
Definition process_packet (screen_flag : bool) (packet : bytes)
    (labels_printed : bool) : M bool :=
  decoded <- lift (decode_message packet) ;;
  let '(name, eds_object) := decoded in
  labels_printed <-
    (if negb labels_printed then
       csv_string <- tlm_display_string "labels" eds_object name "" ;;
       fout_write (csv_string ++ newline) ;;;
       ret true
     else ret labels_printed) ;;
  csv_string <- tlm_display_string "values" eds_object name "" ;;
  fout_write (csv_string ++ newline) ;;;
  (if screen_flag then
     dump <- lift (hex_string (hex packet) 16) ;;
     print dump ;;;
     text <- tlm_display_string "screen" eds_object name "" ;;
     print text
   else ret tt) ;;;
  ret labels_printed.

(** The loop over the packets that the generator yields. *)
Fixpoint stream_packets (screen_flag : bool) (packets : list bytes)
    (labels_printed : bool) : M bool :=
  match packets with
  | [] => ret labels_printed
  | packet :: rest =>
      labels_printed <- process_packet screen_flag packet labels_printed ;;
      stream_packets screen_flag rest labels_printed
  end.

(**
<<
    try:
        eds_db = EdsLib.Database(mission)
        intf_db = CFE_MissionLib.Database(mission, eds_db)
    except RuntimeError:
        print("convert_tlm_file.py is not properly configured")
        sys.exit(2)
    try:
        fin = open(filename, 'rb')
    except RuntimeError:
        print("Invalid file name")
        print("convert_tlm_file.py -f <filename>")
        sys.exit(2)
    packet_length = int.from_bytes(fin.read(4), byteorder='big', signed=False)
    csv_filename = filename.replace('.bin', '.csv')
    fout = open(csv_filename, 'w')
    for packet in read_packet(fin, packet_length):
        ...
    fin.close()
    if fout is not None:
        fout.close()
>>
    Only [RuntimeError] is caught by the two handlers; any other exception
    leaves [main]. After [open] has returned, [fout] is never [None]. *)
Definition main (screen_flag : bool) : M unit :=
  match init_databases with
  | inl RuntimeError =>
      print "convert_tlm_file.py is not properly configured" ;;;
      sys_exit 2
  | inl e => raise e
  | inr _ =>
      fin <-
        match open_source with
        | inl RuntimeError =>
            print "Invalid file name" ;;;
            print "convert_tlm_file.py -f <filename>" ;;;
            sys_exit 2
        | inl e => raise e
        | inr data => set_fin Opened ;;; ret (mk_file data 0)
        end ;;
      let '(header, fin) := read fin 4 in
      let packet_length := from_bytes_big header in
      match open_destination with
      | inl e => raise e
      | inr _ => set_fout Opened
      end ;;;
      stream_packets screen_flag
        (read_packet fin (N.to_nat packet_length)) false ;;;
      set_fin Closed ;;;
      set_fout Closed
  end.

End Driver.

(** ** The two loops of tlm_display_string, by name *)

Section Loops.

Variables output_flag base_name : string.

Fixpoint array_loop (rest : list EdsObject) (i : nat) (result : string)
    {struct rest} : M string :=
  match rest with
  | [] => ret result
  | element :: rest' =>
      result <- tlm_display_string output_flag element
                  (element_name base_name i) result ;;
      array_loop rest' (S i) result
  end.

Fixpoint container_loop (rest : list (string * EdsObject)) (result : string)
    {struct rest} : M string :=
  match rest with
  | [] => ret result
  | item :: rest' =>
      result <- tlm_display_string output_flag (snd item)
                  (member_name base_name (fst item)) result ;;
      container_loop rest' result
  end.

End Loops.

(** The concatenation of a sequence of strings. *)
Definition join (parts : list string) : string :=
  fold_right String.append "" parts.

(** ** The flattening of the design

    The design describes the flattener as a function from a tree and a base
    path to the sequence of (path, rendered value) pairs of its leaves.
    [flatten] follows that description; [tlm_display_string] is compared
    with it below. *)

Fixpoint flatten (tree : EdsObject) (basePath : string)
  : list (string * string) :=
  match tree with
  | Scalar renderedValue => [(basePath, renderedValue)]
  | Array elements =>
      (fix elements_from (rest : list EdsObject) (i : nat) :=
         match rest with
         | [] => []
         | element :: rest' =>
             flatten element (basePath ++ "[" ++ str_of_nat i ++ "]")
               ++ elements_from rest' (S i)
         end)%list elements 0
  | Container members =>
      (fix members_of (rest : list (string * EdsObject)) :=
         match rest with
         | [] => []
         | (name, child) :: rest' =>
             flatten child (basePath ++ "." ++ name) ++ members_of rest'
         end)%list members
  end.

(** How one (path, value) pair is rendered in each output mode. *)
Definition render_leaf (output_flag : string) (leaf : string * string)
  : string :=
  if (output_flag =? "screen")%string then
    ljust 60 (fst leaf) ++ " = " ++ snd leaf ++ newline
  else if (output_flag =? "labels")%string then fst leaf ++ ", "
  else snd leaf ++ ", ".

Definition recognized (output_flag : string) : bool :=
  (output_flag =? "screen")%string || (output_flag =? "labels")%string
  || (output_flag =? "values")%string.

(** Two objects of the same type: the same nesting of arrays and
    containers, with arrays of the same length and containers of the same
    member names in the same order; the leaves may differ. *)
Fixpoint same_shape (a b : EdsObject) {struct a} : bool :=
  match a, b with
  | Scalar _, Scalar _ => true
  | Array xs, Array ys =>
      (fix all2 (xs ys : list EdsObject) {struct xs} : bool :=
         match xs, ys with
         | [], [] => true
         | x :: xs', y :: ys' => same_shape x y && all2 xs' ys'
         | _, _ => false
         end) xs ys
  | Container ms, Container ns =>
      (fix all2 (ms ns : list (string * EdsObject)) {struct ms} : bool :=
         match ms, ns with
         | [], [] => true
         | m :: ms', n :: ns' =>
             (fst m =? fst n)%string && same_shape (snd m) (snd n)
             && all2 ms' ns'
         | _, _ => false
         end) ms ns
  | _, _ => false
  end.

(** ** Reading a hex dump back

    The design asks that the text of [hex_string] can be decoded: drop the
    white space and the [0x] prefixes, then read the remaining hexadecimal
    digits two by two. These definitions follow that description. *)

Definition is_whitespace (c : ascii) : bool :=
  let n := nat_of_ascii c in
  ((9 <=? n) && (n <=? 13) || (n =? 32))%nat.

Fixpoint remove_whitespace (s : string) : string :=
  match s with
  | "" => ""
  | String c rest =>
      if is_whitespace c then remove_whitespace rest
      else String c (remove_whitespace rest)
  end.

Fixpoint strip_0x (s : string) : string :=
  match s with
  | "" => ""
  | String c rest =>
      match rest with
      | String c' rest' =>
          if ((c =? "0") && (c' =? "x"))%char then strip_0x rest'
          else String c (strip_0x rest)
      | "" => String c ""
      end
  end.

Definition hex_value (c : ascii) : option N :=
  let n := N_of_ascii c in
  if ((48 <=? n) && (n <=? 57))%N then Some (n - 48)%N
  else if ((65 <=? n) && (n <=? 70))%N then Some (n - 55)%N
  else if ((97 <=? n) && (n <=? 102))%N then Some (n - 87)%N
  else None.

Fixpoint unhex (s : string) : option bytes :=
  match s with
  | "" => Some []
  | String _ "" => None
  | String h (String l rest) =>
      match hex_value h, hex_value l, unhex rest with
      | Some a, Some b, Some data =>
          option_map (fun x => x :: data) (Byte.of_N (16 * a + b))
      | _, _, _ => None
      end
  end.

Definition decode_hex_dump (s : string) : option bytes :=
  unhex (strip_0x (remove_whitespace s)).

(** The text expected for one byte, the [count]-th of the dump: [0xHH]
    with two uppercase digits, a space, and a line break when [count] is a
    multiple of [bytes_per_line]. *)
Definition upper_hex_digit (d : N) : ascii :=
  if (d <? 10)%N then ascii_of_N (48 + d) else ascii_of_N (55 + d).

Definition render_byte (bytes_per_line count : Z) (b : byte) : string :=
  "0x"
  ++ String (upper_hex_digit (Byte.to_N b / 16))
       (String (upper_hex_digit (Byte.to_N b mod 16)) " ")
  ++ (if (count mod bytes_per_line =? 0)%Z then newline else "").

(** The text expected for a whole packet: its bytes in order, numbered
    from 1. *)
Definition hex_dump (bytes_per_line : Z) (data : bytes) : string :=
  join (map (fun kb => render_byte bytes_per_line (Z.of_nat (S (fst kb)))
                                   (snd kb))
            (combine (seq 0 (List.length data)) data)).

(** ** Auxiliary definitions for the statements below *)

(** The leaves of an array and of a container, spelled out with the index
    of each element. *)
Fixpoint flatten_elements (basePath : string) (rest : list EdsObject)
    (i : nat) : list (string * string) :=
  match rest with
  | [] => []
  | element :: rest' =>
      (flatten element (element_name basePath i)
         ++ flatten_elements basePath rest' (S i))%list
  end.

Fixpoint flatten_members (basePath : string)
    (rest : list (string * EdsObject)) : list (string * string) :=
  match rest with
  | [] => []
  | item :: rest' =>
      (flatten (snd item) (member_name basePath (fst item))
         ++ flatten_members basePath rest')%list
  end.

Definition went_wrong : string := "Something went wrong in tlm_display_string".

(** The state after [n] more prints of the diagnostic. *)
Definition complained (n : nat) (w : world) : world :=
  mk_world (fin_handle w) (fout_handle w) (fout_written w)
           (stdout w ++ repeat went_wrong n)%list.

(** The dump of the bytes that follow the [count]-th. *)
Fixpoint hex_dump_from (bytes_per_line count : Z) (data : bytes) : string :=
  match data with
  | [] => ""
  | b :: rest =>
      render_byte bytes_per_line (count + 1) b
      ++ hex_dump_from bytes_per_line (count + 1) rest
  end.

(** The text that [main] writes for a decoded packet: the header line,
    the data line, and the text printed with [-s]. *)
Definition labels_line (decoded : string * EdsObject) : string :=
  join (map (render_leaf "labels") (flatten (snd decoded) (fst decoded)))
  ++ newline.

Definition values_line (decoded : string * EdsObject) : string :=
  join (map (render_leaf "values") (flatten (snd decoded) (fst decoded)))
  ++ newline.

Definition screen_text (decoded : string * EdsObject) : string :=
  join (map (render_leaf "screen") (flatten (snd decoded) (fst decoded))).

(** The number of line breaks in a text, and the objects whose member
    names and rendered values hold none. *)
Fixpoint count_newlines (s : string) : nat :=
  match s with
  | "" => 0
  | String c rest =>
      (if Ascii.eqb c (ascii_of_nat 10) then 1 else 0) + count_newlines rest
  end.

Fixpoint single_line (o : EdsObject) : bool :=
  match o with
  | Scalar rendered => (count_newlines rendered =? 0)%nat
  | Array elements => forallb single_line elements
  | Container members =>
      forallb (fun item => (count_newlines (fst item) =? 0)%nat
                           && single_line (snd item)) members
  end.

Definition single_line_record (decoded : string * EdsObject) : bool :=
  (count_newlines (fst decoded) =? 0)%nat && single_line (snd decoded).

Definition leaf_on_one_line (leaf : string * string) : Prop :=
  count_newlines (fst leaf) = 0 /\ count_newlines (snd leaf) = 0.

(** ** Sample inputs *)

(** A length header of 8, one whole packet and a fragment of 3 bytes. *)
Definition truncated_source : bytes :=
  [x00; x00; x00; x08;
   x01; x02; x03; x04; x05; x06; x07; x08;
   x09; x0a; x0b].

(** A length header of 0 followed by three bytes. *)
Definition zero_header_source : bytes :=
  [x00; x00; x00; x00; x01; x02; x03].

(** A length header of 8 and two packets. *)
Definition two_packet_source : bytes :=
  [x00; x00; x00; x08;
   x00; x00; x00; x01; x00; x00; x00; x02;
   x00; x00; x00; x03; x00; x00; x00; x04].

(** A decoder for packets of two big-endian 32-bit fields [a] and [b];
    it rejects a packet of any other length. *)
Definition decode_pair (raw_message : bytes) : exn + (string * EdsObject) :=
  if (List.length raw_message =? 8)%nat then
    inr ("TypeName",
         Container
           [("a", Scalar (str_of_nat
                            (N.to_nat (from_bytes_big (firstn 4 raw_message)))));
            ("b", Scalar (str_of_nat
                            (N.to_nat (from_bytes_big (skipn 4 raw_message)))))])
  else inl DecodeError.

(** ** The command line of main

    The part of [main] that comes before the databases are initialised.
<<
    try:
        opts, args = getopt.getopt(argv, "hs", ["file="])
    except getopt.GetoptError:
        print("convert_tlm_file.py --file=<filename>")
        sys.exit(2)
    ...
    screen_flag = False
    for opt, arg in opts:
        if opt == '-h':
            print("convert_tlm_file.py --file=<filename>")
            print(" --file= : telemetry file name")
            print(" -h : help")
            print(" -s : print to screen")
            sys.exit()
        elif opt in ('--file'):
            filename = arg
        elif opt == '-s':
            screen_flag = True
>>
    [('--file')] is a string, not a tuple, so that [opt in ('--file')]
    asks whether [opt] occurs in the text [--file]. The local variable
    [filename] is unbound until a [--file] option binds it. [sys.exit()]
    without an argument ends the process with status 0. *)

(** [sub in s] for two strings. *)
Fixpoint contains (sub s : string) : bool :=
  if String.prefix sub s then true
  else
    match s with
    | "" => false
    | String _ rest => contains sub rest
    end.

Fixpoint options_loop (opts : list (string * string))
    (filename : option string) (screen_flag : bool)
  : M (option string * bool) :=
  match opts with
  | [] => ret (filename, screen_flag)
  | (opt, arg) :: rest =>
      if (opt =? "-h")%string then
        print "convert_tlm_file.py --file=<filename>" ;;;
        print " --file= : telemetry file name" ;;;
        print " -h : help" ;;;
        print " -s : print to screen" ;;;
        sys_exit 0
      else if contains opt "--file" then
        options_loop rest (Some arg) screen_flag
      else if (opt =? "-s")%string then
        options_loop rest filename true
      else options_loop rest filename screen_flag
  end.

(** [s.replace(old, new)] for a non-empty [old]: every occurrence of
    [old] met from left to right, not overlapping the previous one, is
    replaced. [skip] counts the characters of the occurrence being replaced
    that are still to pass. *)
Fixpoint replace_from (old new : string) (skip : nat) (s : string) : string :=
  match s with
  | "" => ""
  | String c rest =>
      match skip with
      | S skip' => replace_from old new skip' rest
      | 0 =>
          if String.prefix old s then
            new ++ replace_from old new (String.length old - 1) rest
          else String c (replace_from old new 0 rest)
      end
  end.

Definition replace (old new s : string) : string := replace_from old new 0 s.

(** [csv_filename = filename.replace('.bin', '.csv')] *)
Definition csv_filename (filename : string) : string :=
  replace ".bin" ".csv" filename.

(** How a whole run of [main] ends when it does not end normally: as the
    body modelled by [main] does, or by the [UnboundLocalError] that
    [open(filename, 'rb')] raises when no [--file] option was given. *)
Inductive main_abort : Type :=
| Aborted (a : abort)
| UnboundFilename.

Definition outcome_of {A} (r : (abort + A) * world)
  : (main_abort + A) * world :=
  match r with
  | (inl a, w) => (inl (Aborted a), w)
  | (inr x, w) => (inr x, w)
  end.

(** [main(argv)], from the outcome of [getopt.getopt] ([None] when it
    raises [GetoptError]); [open_rb] and [open_w] give the outcome of
    opening a path for reading and for writing. The two paths are taken
    to name different files, as they do when [filename] holds [.bin];
    what is said below of the content read supposes it. *)
Definition main_argv (getopt_result : option (list (string * string)))
    (init_databases : exn + unit)
    (open_rb : string -> exn + bytes)
    (open_w : string -> exn + unit)
    (decode_message : bytes -> exn + (string * EdsObject))
  : world -> (main_abort + unit) * world :=
  fun w =>
    match getopt_result with
    | None =>
        outcome_of
          ((print "convert_tlm_file.py --file=<filename>" ;;; sys_exit 2) w)
    | Some opts =>
        match options_loop opts None false w with
        | (inl a, w') => (inl (Aborted a), w')
        | (inr (Some filename, screen_flag), w') =>
            outcome_of
              (main init_databases (open_rb filename)
                    (open_w (csv_filename filename)) decode_message
                    screen_flag w')
        | (inr (None, _), w') =>
            match init_databases with
            | inl RuntimeError =>
                outcome_of
                  ((print "convert_tlm_file.py is not properly configured" ;;;
                    sys_exit 2) w')
            | inl e => (inl (Aborted (Raised e)), w')
            | inr _ => (inl UnboundFilename, w')
            end
        end
    end.

(** ** Names that make distinct paths

    A name is plain when it holds neither [.] nor [[], the two characters
    that [tlm_display_string] puts between the parts of a path. An object
    is well named when, in each of its containers, the member names are
    plain and differ from one another. *)
Fixpoint has_char (c : ascii) (s : string) : bool :=
  match s with
  | "" => false
  | String c' rest => Ascii.eqb c c' || has_char c rest
  end.

Definition plain_name (s : string) : bool :=
  negb (has_char "." s) && negb (has_char "[" s).

Fixpoint distinct (names : list string) : bool :=
  match names with
  | [] => true
  | name :: rest => negb (existsb (String.eqb name) rest) && distinct rest
  end.

Fixpoint well_named (o : EdsObject) : bool :=
  match o with
  | Scalar _ => true
  | Array elements => forallb well_named elements
  | Container members =>
      forallb (fun item => plain_name (fst item)) members
      && distinct (map fst members)
      && forallb (fun item => well_named (snd item)) members
  end.

(** A text that is empty or begins with [.] or [[]: what follows the path
    of an object in the path of one of its leaves. *)
Definition delimited (s : string) : Prop :=
  s = "" \/ exists c rest, s = String c rest /\ (c = "."%char \/ c = "["%char).

(** A length header of 8, one packet with the fields 1 and 2, and a
    fragment of 3 bytes. *)
Definition cut_short_source : bytes :=
  [x00; x00; x00; x08;
   x00; x00; x00; x01; x00; x00; x00; x02;
   x09; x0a; x0b].

(** What the options given mean: the argument of the last [--file], and
    whether there is a [-s]. *)
Fixpoint last_file (opts : list (string * string)) : option string :=
  match opts with
  | [] => None
  | (opt, arg) :: rest =>
      match last_file rest with
      | Some filename => Some filename
      | None => if (opt =? "--file")%string then Some arg else None
      end
  end.

Definition wants_screen (opts : list (string * string)) : bool :=
  existsb (fun o => (fst o =? "-s")%string) opts.

Definition usage : list string :=
  ["convert_tlm_file.py --file=<filename>";
   " --file= : telemetry file name";
   " -h : help";
   " -s : print to screen"].

(** The rendered values of the leaves of an object, in order; no name
    takes part. *)
Fixpoint leaf_values (o : EdsObject) : list string :=
  match o with
  | Scalar rendered => [rendered]
  | Array elements => flat_map leaf_values elements
  | Container members => flat_map (fun item => leaf_values (snd item)) members
  end.
(** * Properties *)

(** ** read_packet *)

Local Open Scope list_scope.

Lemma read_packet_step f n :
  read_packet f n =
  match next_packet f n with
  | None => []
  | Some (packet, f') => packet :: read_packet f' n
  end.
Proof.
  rewrite read_packet_equation_1.
  destruct (inspect (next_packet f n)) as [[[p g]|] e];
    simpl; rewrite e; reflexivity.
Qed.

Lemma next_packet_None f n :
  next_packet f n = None <-> fst (read f n) = [].
Proof.
  unfold next_packet. destruct (read f n) as [[|b p] g]; simpl; split;
    intros H; try reflexivity; discriminate.
Qed.

Lemma next_packet_Some f n packet f' :
  next_packet f n = Some (packet, f') <->
  read f n = (packet, f') /\ packet <> [].
Proof.
  unfold next_packet. destruct (read f n) as [[|b p] g]; simpl; split.
  - discriminate.
  - intros [H Hne]. inversion H; subst. now elim Hne.
  - intros H; inversion H; subst. split; [reflexivity | discriminate].
  - intros [H _]. now inversion H.
Qed.

(** Induction along the iterations of the generator's loop. *)
Lemma read_packet_loop_ind (n : nat) (P : binary_file -> list bytes -> Prop) :
  (forall f, next_packet f n = None -> P f []) ->
  (forall f packet f',
      next_packet f n = Some (packet, f') ->
      P f' (read_packet f' n) -> P f (packet :: read_packet f' n)) ->
  forall f, P f (read_packet f n).
Proof.
  intros Hstop Hyield f.
  remember (length (remaining f)) as m eqn:Hm.
  revert f Hm. induction m as [m IH] using lt_wf_ind. intros f Hm.
  rewrite read_packet_step.
  destruct (next_packet f n) as [[p g]|] eqn:E.
  - apply Hyield; [assumption|].
    apply (IH (length (remaining g))); [|reflexivity].
    subst m. eapply next_packet_decreases; eauto.
  - now apply Hstop.
Qed.

Lemma remaining_advance f size k :
  remaining (advance f size k) = skipn (k * size) (remaining f).
Proof.
  revert f. induction k as [|k IH]; intros f; cbn [advance]; [reflexivity|].
  rewrite IH, remaining_read, skipn_skipn. f_equal. simpl. lia.
Qed.

Lemma firstn_nil_inv {A} n (l : list A) :
  firstn n l = [] -> n = 0 \/ l = [].
Proof. destruct n, l; simpl; auto; discriminate. Qed.

Lemma read_empty_at_eof f size :
  0 < size -> fst (read f size) = [] -> remaining f = [].
Proof.
  rewrite read_data. intros Hs H.
  destruct (firstn_nil_inv _ _ H); [lia | assumption].
Qed.

(** The [k]-th packet of the stream is what the [k]-th consecutive read
    returns, as long as that read returns something. *)
Lemma read_packet_nth_error f n k :
  nth_error (read_packet f n) k =
  match fst (read (advance f n k) n) with
  | [] => None
  | b :: data => Some (b :: data)
  end.
Proof.
  revert f. induction k as [|k IH]; intros f; rewrite read_packet_step.
  - cbn [advance]. unfold next_packet. now destruct (read f n) as [[|b p] g].
  - destruct (next_packet f n) as [[p g]|] eqn:E.
    + apply next_packet_Some in E as [E _]. cbn [advance nth_error].
      rewrite IH, E. reflexivity.
    + apply next_packet_None in E. cbn [advance nth_error].
      rewrite read_data, remaining_advance, remaining_read.
      rewrite read_data in E.
      destruct (firstn_nil_inv _ _ E) as [-> | ->].
      * reflexivity.
      * now rewrite !skipn_nil, firstn_nil.
Qed.

Lemma read_packet_concat f n :
  0 < n -> concat (read_packet f n) = remaining f.
Proof.
  intros Hn. revert f.
  apply (read_packet_loop_ind n (fun f ps => concat ps = remaining f)).
  - intros f E. apply next_packet_None in E.
    simpl. symmetry. now apply read_empty_at_eof with n.
  - intros f p g E IH. apply next_packet_Some in E as [E _].
    simpl. rewrite IH.
    replace g with (snd (read f n)) by now rewrite E.
    replace p with (fst (read f n)) by now rewrite E.
    rewrite remaining_read, read_data. apply firstn_skipn.
Qed.

Lemma read_packet_nonempty f n :
  Forall (fun packet => packet <> []) (read_packet f n).
Proof.
  revert f.
  apply (read_packet_loop_ind n (fun _ ps => Forall (fun p => p <> []) ps)).
  - constructor.
  - intros f p g E IH. apply next_packet_Some in E as [_ E].
    now constructor.
Qed.

Lemma read_packet_at_eof f n : remaining f = [] -> read_packet f n = [].
Proof.
  intros H. rewrite read_packet_step.
  replace (next_packet f n) with (@None (bytes * binary_file));
    [reflexivity|].
  symmetry. apply next_packet_None. rewrite read_data, H. apply firstn_nil.
Qed.

(** When the content left is not a whole number of packets, the last
    packet yielded is what is left after the whole ones. *)
Lemma read_packet_short_tail n :
  0 < n ->
  forall f,
    let len := length (remaining f) in
    len mod n <> 0 ->
    exists init,
      read_packet f n = init ++ [skipn (len - len mod n) (remaining f)]
      /\ Forall (fun packet => length packet = n) init.
Proof.
  intros Hn.
  apply (read_packet_loop_ind n
           (fun f ps =>
              let len := length (remaining f) in
              len mod n <> 0 ->
              exists init,
                ps = init ++ [skipn (len - len mod n) (remaining f)]
                /\ Forall (fun packet => length packet = n) init)).
  - intros f E. cbv zeta. intros Hmod. apply next_packet_None in E.
    apply read_empty_at_eof in E; [|assumption].
    rewrite E in Hmod. simpl in Hmod. rewrite Nat.Div0.mod_0_l in Hmod.
    now elim Hmod.
  - intros f p g E IH. cbv zeta in *. intros Hmod.
    apply next_packet_Some in E as [E _].
    assert (Hp : p = firstn n (remaining f)) by (now rewrite <- read_data, E).
    assert (Hg : remaining g = skipn n (remaining f))
      by (now rewrite <- remaining_read, E).
    set (r := remaining f) in *.
    destruct (Nat.lt_ge_cases (length r) n) as [Hlt | Hge].
    + exists []. split; [|constructor].
      rewrite read_packet_at_eof
        by (rewrite Hg; apply skipn_all2; lia).
      rewrite Nat.mod_small, Nat.sub_diag by assumption.
      rewrite Hp, firstn_all2 by lia. reflexivity.
    + assert (Hlen : length (remaining g) = length r - n)
        by (rewrite Hg; apply length_skipn).
      assert (Hm : (length r - n) mod n = length r mod n).
      { rewrite <- (Nat.Div0.mod_add (length r - n) 1 n).
        f_equal. lia. }
      rewrite Hlen, Hm in IH. destruct (IH Hmod) as (init & Hps & Hall).
      exists (p :: init). split.
      * rewrite Hps, Hg, skipn_skipn. simpl. f_equal. f_equal. f_equal.
        assert (length r mod n <= length r - n)
          by (rewrite <- Hm; apply Nat.Div0.mod_le).
        f_equal. lia.
      * constructor; [|assumption].
        rewrite Hp, length_firstn. lia.
Qed.

(** A read that returns fewer bytes than asked has reached the end. *)
Lemma short_read_then_eof f n k :
  length (fst (read (advance f n k) n)) < n ->
  fst (read (advance f n (S k)) n) = [].
Proof.
  rewrite !read_data, !remaining_advance, length_firstn. intros H.
  rewrite skipn_all2; [apply firstn_nil|].
  assert (length (skipn (k * n) (remaining f)) < n) by lia.
  rewrite length_skipn in H0. simpl. lia.
Qed.

(** ** tlm_display_string *)

Local Open Scope string_scope.

(** Induction on EDS objects, with the hypothesis on every element of an
    array and every member of a container. *)
Lemma EdsObject_nested_ind (P : EdsObject -> Prop)
    (HScalar : forall rendered, P (Scalar rendered))
    (HArray : forall elements, Forall P elements -> P (Array elements))
    (HContainer : forall members,
        Forall (fun item => P (snd item)) members -> P (Container members))
  : forall o, P o.
Proof.
  exact (fix go (o : EdsObject) : P o :=
    match o with
    | Scalar rendered => HScalar rendered
    | Array elements =>
        HArray elements
          ((fix all (l : list EdsObject) : Forall P l :=
              match l with
              | [] => Forall_nil _
              | x :: l' => Forall_cons x (go x) (all l')
              end) elements)
    | Container members =>
        HContainer members
          ((fix all (l : list (string * EdsObject))
              : Forall (fun item => P (snd item)) l :=
              match l with
              | [] => Forall_nil _
              | x :: l' => Forall_cons x (go (snd x)) (all l')
              end) members)
    end).
Qed.

Lemma tlm_display_string_Array output_flag elements base_name message :
  tlm_display_string output_flag (Array elements) base_name message =
  array_loop output_flag base_name elements 0 message.
Proof. reflexivity. Qed.

Lemma tlm_display_string_Container output_flag members base_name message :
  tlm_display_string output_flag (Container members) base_name message =
  container_loop output_flag base_name members message.
Proof. reflexivity. Qed.

Lemma append_assoc (a b c : string) : (a ++ b) ++ c = a ++ (b ++ c).
Proof. induction a as [|ch a IH]; simpl; [reflexivity | now rewrite IH]. Qed.

Lemma append_empty_r (a : string) : a ++ "" = a.
Proof. induction a as [|ch a IH]; simpl; [reflexivity | now rewrite IH]. Qed.

Lemma join_app (xs ys : list string) :
  join (xs ++ ys) = join xs ++ join ys.
Proof.
  induction xs as [|x xs IH]; simpl; [reflexivity|].
  now rewrite IH, append_assoc.
Qed.

Lemma flatten_Array basePath elements :
  flatten (Array elements) basePath = flatten_elements basePath elements 0.
Proof.
  simpl. generalize 0 as i.
  induction elements as [|element rest IH]; intros i; simpl;
    [reflexivity | now rewrite IH].
Qed.

Lemma flatten_Container basePath members :
  flatten (Container members) basePath = flatten_members basePath members.
Proof.
  simpl. induction members as [|[name child] rest IH]; simpl;
    [reflexivity | now rewrite IH].
Qed.

Lemma flatten_elements_indexed basePath elements i :
  flatten_elements basePath elements i =
  flat_map (fun ie => flatten (snd ie) (element_name basePath (fst ie)))
           (combine (seq i (List.length elements)) elements).
Proof.
  revert i. induction elements as [|e rest IH]; intros i; simpl;
    [reflexivity | now rewrite IH].
Qed.

Lemma flatten_members_declared basePath members :
  flatten_members basePath members =
  flat_map (fun item => flatten (snd item) (member_name basePath (fst item)))
           members.
Proof.
  induction members as [|m rest IH]; simpl; [reflexivity | now rewrite IH].
Qed.

Lemma tlm_display_string_refines_flatten output_flag base_object :
  recognized output_flag = true ->
  forall base_name message w,
    tlm_display_string output_flag base_object base_name message w =
    (inr (message
          ++ join (map (render_leaf output_flag)
                       (flatten base_object base_name))), w).
Proof.
  intros Hflag.
  induction base_object as [rendered | elements IH | members IH]
    using EdsObject_nested_ind; intros base_name message w.
  - unfold recognized in Hflag. simpl. unfold render_leaf. simpl.
    destruct (output_flag =? "screen") eqn:E1.
    { unfold ret. now rewrite append_empty_r. }
    destruct (output_flag =? "labels") eqn:E2.
    { unfold ret. now rewrite append_empty_r. }
    destruct (output_flag =? "values") eqn:E3; [|discriminate].
    unfold ret. now rewrite append_empty_r.
  - rewrite tlm_display_string_Array, flatten_Array.
    generalize 0 as i. revert message w.
    induction IH as [|e rest He _ IHrest]; intros message w i.
    + simpl. unfold ret. now rewrite append_empty_r.
    + cbn [array_loop flatten_elements]. unfold bind.
      rewrite He, IHrest, map_app, join_app, append_assoc. reflexivity.
  - rewrite tlm_display_string_Container, flatten_Container.
    revert message w.
    induction IH as [|m rest Hm _ IHrest]; intros message w.
    + simpl. unfold ret. now rewrite append_empty_r.
    + cbn [container_loop flatten_members]. unfold bind.
      rewrite Hm, IHrest, map_app, join_app, append_assoc. reflexivity.
Qed.

(** The leaf paths depend on the shape of the object only. *)
Lemma same_shape_paths a :
  forall b, same_shape a b = true ->
  forall basePath,
    map fst (flatten a basePath) = map fst (flatten b basePath).
Proof.
  induction a as [rendered | elements IH | members IH]
    using EdsObject_nested_ind; intros [r' | ys | ns] Hs basePath;
    try discriminate.
  - reflexivity.
  - rewrite !flatten_Array. simpl in Hs.
    generalize 0 as i. revert ys Hs.
    induction IH as [|x xs Hx _ IHxs]; intros [|y ys] Hs i;
      try discriminate; [reflexivity|].
    apply andb_true_iff in Hs as [Hxy Hrest].
    cbn [flatten_elements]. rewrite !map_app.
    rewrite (Hx y Hxy), (IHxs ys Hrest). reflexivity.
  - rewrite !flatten_Container. simpl in Hs.
    revert ns Hs.
    induction IH as [|m ms Hm _ IHms]; intros [|n ns] Hs;
      try discriminate; [reflexivity|].
    apply andb_true_iff in Hs as [Hmn Hrest].
    apply andb_true_iff in Hmn as [Hname Hchild].
    apply String.eqb_eq in Hname.
    cbn [flatten_members]. rewrite !map_app.
    rewrite Hname, (Hm (snd n) Hchild), (IHms ns Hrest). reflexivity.
Qed.

Lemma render_leaf_labels leaves :
  map (render_leaf "labels") leaves =
  map (fun path => path ++ ", ") (map fst leaves).
Proof. now rewrite map_map. Qed.

Lemma render_leaf_values leaves :
  map (render_leaf "values") leaves =
  map (fun value => value ++ ", ") (map snd leaves).
Proof. now rewrite map_map. Qed.

(** *** An output flag that is none of the three *)

Lemma complained_0 w : complained 0 w = w.
Proof. destruct w. unfold complained. simpl. now rewrite app_nil_r. Qed.

Lemma complained_add n m w :
  complained m (complained n w) = complained (n + m) w.
Proof.
  unfold complained. simpl. now rewrite repeat_app, app_assoc.
Qed.

Lemma recognized_false output_flag :
  recognized output_flag = false ->
  (output_flag =? "screen") = false /\ (output_flag =? "labels") = false
  /\ (output_flag =? "values") = false.
Proof.
  unfold recognized. intros H.
  apply orb_false_iff in H as [H H3].
  apply orb_false_iff in H as [H1 H2]. auto.
Qed.

Lemma tlm_display_string_unrecognized output_flag base_object :
  recognized output_flag = false ->
  forall base_name message w,
    tlm_display_string output_flag base_object base_name message w =
    let leaves := List.length (flatten base_object base_name) in
    (inr (if leaves =? 0 then message else "")%nat, complained leaves w).
Proof.
  intros Hflag. destruct (recognized_false _ Hflag) as (E1 & E2 & E3).
  induction base_object as [rendered | elements IH | members IH]
    using EdsObject_nested_ind; intros base_name message w.
  - simpl. rewrite E1, E2, E3. reflexivity.
  - rewrite tlm_display_string_Array, flatten_Array.
    enough (Hloop : forall i message w,
               array_loop output_flag base_name elements i message w =
               let leaves :=
                 List.length (flatten_elements base_name elements i) in
               (inr (if leaves =? 0 then message else "")%nat,
                complained leaves w)) by apply Hloop.
    clear message w.
    induction IH as [|e rest He _ IHrest]; intros i message w.
    + cbv zeta. cbn [array_loop flatten_elements List.length Nat.eqb].
      now rewrite complained_0.
    + cbn [array_loop flatten_elements]. unfold bind.
      rewrite He. cbv beta iota zeta. rewrite IHrest. cbv beta iota zeta.
      rewrite length_app, complained_add.
      destruct (List.length (flatten e _)), (List.length (flatten_elements _ _ _));
        reflexivity.
  - rewrite tlm_display_string_Container, flatten_Container.
    revert message w.
    induction IH as [|m rest Hm _ IHrest]; intros message w.
    + cbv zeta. cbn [container_loop flatten_members List.length Nat.eqb].
      now rewrite complained_0.
    + cbn [container_loop flatten_members]. unfold bind.
      rewrite Hm. cbv beta iota zeta. rewrite IHrest. cbv beta iota zeta.
      rewrite length_app, complained_add.
      destruct (List.length (flatten (snd m) _)), (List.length (flatten_members _ _));
        reflexivity.
Qed.

Lemma tlm_display_string_result_pure output_flag base_object base_name message w w' :
  fst (tlm_display_string output_flag base_object base_name message w) =
  fst (tlm_display_string output_flag base_object base_name message w').
Proof.
  destruct (recognized output_flag) eqn:E.
  - now rewrite !tlm_display_string_refines_flatten.
  - now rewrite !tlm_display_string_unrecognized.
Qed.

(** ** hex_string *)

Lemma upper_hex_digit_correct b :
  upper (hex_digit (Byte.to_N b / 16)) = upper_hex_digit (Byte.to_N b / 16)
  /\ upper (hex_digit (Byte.to_N b mod 16))
     = upper_hex_digit (Byte.to_N b mod 16).
Proof. destruct b; split; reflexivity. Qed.

Lemma hex_dump_from_indexed bytes_per_line data i :
  hex_dump_from bytes_per_line (Z.of_nat i) data =
  join (map (fun kb => render_byte bytes_per_line (Z.of_nat (S (fst kb)))
                                   (snd kb))
            (combine (seq i (List.length data)) data)).
Proof.
  revert i. induction data as [|b rest IH]; intros i; [reflexivity|].
  cbn [hex_dump_from List.length seq combine map join fold_right fst snd].
  fold (join (map (fun kb => render_byte bytes_per_line (Z.of_nat (S (fst kb)))
                                   (snd kb))
            (combine (seq (S i) (List.length rest)) rest))).
  rewrite <- IH. f_equal; [f_equal; lia | f_equal; lia].
Qed.

Lemma hex_string_loop_hex bytes_per_line data :
  bytes_per_line <> 0%Z ->
  forall count hex_str,
    hex_string_loop (hex data) bytes_per_line count hex_str =
    inr (hex_str ++ hex_dump_from bytes_per_line count data).
Proof.
  intros Hbpl. apply Z.eqb_neq in Hbpl.
  induction data as [|b rest IH]; intros count hex_str.
  - simpl. now rewrite append_empty_r.
  - cbn [hex hex_string_loop hex_dump_from]. rewrite Hbpl, IH.
    destruct (upper_hex_digit_correct b) as [-> ->].
    unfold render_byte.
    destruct ((count + 1) mod bytes_per_line =? 0)%Z.
    all: rewrite !append_assoc; cbn [append]; reflexivity.
Qed.

(** Reading back the text of one byte. *)
Lemma remove_whitespace_render_byte bytes_per_line count b s :
  remove_whitespace (render_byte bytes_per_line count b ++ s) =
  String "0" (String "x"
    (String (upper_hex_digit (Byte.to_N b / 16))
       (String (upper_hex_digit (Byte.to_N b mod 16))
          (remove_whitespace s)))).
Proof.
  unfold render_byte.
  destruct (count mod bytes_per_line =? 0)%Z; destruct b; reflexivity.
Qed.

Lemma strip_0x_digits b s :
  s = "" \/ (exists s', s = String "0" (String "x" s')) ->
  strip_0x (String "0" (String "x"
    (String (upper_hex_digit (Byte.to_N b / 16))
       (String (upper_hex_digit (Byte.to_N b mod 16)) s)))) =
  String (upper_hex_digit (Byte.to_N b / 16))
    (String (upper_hex_digit (Byte.to_N b mod 16)) (strip_0x s)).
Proof.
  intros [-> | [s' ->]]; destruct b; reflexivity.
Qed.

Lemma unhex_digits b s :
  unhex (String (upper_hex_digit (Byte.to_N b / 16))
           (String (upper_hex_digit (Byte.to_N b mod 16)) s)) =
  option_map (fun data => b :: data) (unhex s).
Proof.
  destruct b; cbn [unhex]; destruct (unhex s); reflexivity.
Qed.

Lemma remove_whitespace_hex_dump_from bytes_per_line count data :
  let s := remove_whitespace (hex_dump_from bytes_per_line count data) in
  s = "" \/ (exists s', s = String "0" (String "x" s')).
Proof.
  destruct data as [|b rest]; [now left | right].
  cbn [hex_dump_from]. rewrite remove_whitespace_render_byte. eauto.
Qed.

Lemma decode_hex_dump_from bytes_per_line data :
  forall count,
    decode_hex_dump (hex_dump_from bytes_per_line count data) = Some data.
Proof.
  unfold decode_hex_dump.
  induction data as [|b rest IH]; intros count; [reflexivity|].
  cbn [hex_dump_from]. rewrite remove_whitespace_render_byte.
  rewrite strip_0x_digits by apply remove_whitespace_hex_dump_from.
  rewrite unhex_digits, IH. reflexivity.
Qed.

(** ** main *)

Lemma hex_string_hex bytes_per_line data :
  bytes_per_line <> 0%Z ->
  hex_string (hex data) bytes_per_line = inr (hex_dump bytes_per_line data).
Proof.
  intros H. unfold hex_string, hex_dump.
  rewrite hex_string_loop_hex by assumption.
  now rewrite <- hex_dump_from_indexed.
Qed.

Lemma from_bytes_big_4 b0 b1 b2 b3 :
  from_bytes_big [b0; b1; b2; b3] =
  (Byte.to_N b0 * 2 ^ 24 + Byte.to_N b1 * 2 ^ 16 + Byte.to_N b2 * 2 ^ 8
   + Byte.to_N b3)%N.
Proof. unfold from_bytes_big. simpl fold_left. lia. Qed.

(** A stream over a source made of whole packets yields those packets. *)
Lemma read_packet_whole_packets n packets :
  0 < n ->
  Forall (fun packet => List.length packet = n) packets ->
  forall f, remaining f = concat packets -> read_packet f n = packets.
Proof.
  intros Hn Hall. induction Hall as [|p rest Hp _ IH]; intros f Hf;
    rewrite read_packet_step; unfold next_packet;
    destruct (read f n) as [data g] eqn:E;
    assert (Hd : data = firstn n (remaining f)) by (now rewrite <- read_data, E);
    assert (Hg : remaining g = skipn n (remaining f))
      by (now rewrite <- remaining_read, E).
  - rewrite Hf in Hd. simpl in Hd. rewrite firstn_nil in Hd. now subst.
  - rewrite Hf in Hd, Hg. simpl in Hd, Hg.
    rewrite <- Hp in Hd at 1. rewrite firstn_app, Nat.sub_diag in Hd.
    rewrite firstn_all, firstn_O, app_nil_r in Hd.
    rewrite <- Hp in Hg at 1. rewrite skipn_app, Nat.sub_diag in Hg.
    rewrite skipn_all, skipn_O in Hg. simpl in Hg.
    subst data. destruct p as [|b p]; [simpl in Hp; lia|].
    f_equal. now apply IH.
Qed.

Section DriverFacts.

Variable init_databases : exn + unit.
Variable open_source : exn + bytes.
Variable open_destination : exn + unit.
Variable decode_message : bytes -> exn + (string * EdsObject).

(** One iteration of the loop of [main]. *)
Lemma process_packet_run screen_flag packet labels_printed w :
  process_packet decode_message screen_flag packet labels_printed w =
  match decode_message packet with
  | inl e => (inl (Raised e), w)
  | inr decoded =>
      (inr true,
       mk_world (fin_handle w) (fout_handle w)
         (fout_written w
            ++ (if labels_printed then [] else [labels_line decoded])
            ++ [values_line decoded])%list
         (stdout w
            ++ (if screen_flag
                then [hex_dump 16 packet; screen_text decoded]
                else []))%list)
  end.
Proof.
  unfold process_packet, bind, lift.
  destruct (decode_message packet) as [e | [name eds_object]];
    [reflexivity|].
  unfold ret at 1. cbv beta iota.
  destruct labels_printed, screen_flag; cbn [negb];
    rewrite ?tlm_display_string_refines_flatten by reflexivity;
    rewrite ?hex_string_hex by discriminate;
    unfold ret, fout_write, print, labels_line, values_line, screen_text;
    cbn [fin_handle fout_handle fout_written stdout fst snd append];
    rewrite ?tlm_display_string_refines_flatten by reflexivity;
    cbn [fin_handle fout_handle fout_written stdout fst snd append];
    rewrite <- ?app_assoc, ?app_nil_r; try reflexivity.
Qed.

(** The loop never touches the handles and never calls [sys.exit]. *)
Lemma stream_packets_handles screen_flag packets :
  forall labels_printed w,
    let run := stream_packets decode_message screen_flag packets
                 labels_printed w in
    fin_handle (snd run) = fin_handle w
    /\ fout_handle (snd run) = fout_handle w
    /\ (forall code, fst run <> inl (SysExit code)).
Proof.
  induction packets as [|packet rest IH]; intros labels_printed w; cbv zeta.
  - simpl. repeat split; discriminate.
  - cbn [stream_packets]. unfold bind. rewrite process_packet_run.
    destruct (decode_message packet) as [e | decoded].
    + simpl. repeat split; discriminate.
    + specialize (IH true
        (mk_world (fin_handle w) (fout_handle w)
           (fout_written w
              ++ (if labels_printed then [] else [labels_line decoded])
              ++ [values_line decoded])%list
           (stdout w
              ++ (if screen_flag
                  then [hex_dump 16 packet; screen_text decoded]
                  else []))%list)).
      exact IH.
Qed.

(** The loop over packets that all decode. *)
Lemma stream_packets_decoded screen_flag packets :
  forall decoded labels_printed w,
    map decode_message packets = map inr decoded ->
    let run := stream_packets decode_message screen_flag packets
                 labels_printed w in
    fst run = inr (labels_printed || negb (Nat.eqb (List.length packets) 0))
    /\ fout_written (snd run) =
       (fout_written w
          ++ match decoded with
             | [] => []
             | first :: _ =>
                 if labels_printed then [] else [labels_line first]
             end
          ++ map values_line decoded)%list.
Proof.
  induction packets as [|packet rest IH];
    intros [|d ds] labels_printed w Hdec; try discriminate; cbv zeta.
  - simpl. rewrite app_nil_r, orb_false_r. auto.
  - cbn [stream_packets]. unfold bind. rewrite process_packet_run.
    cbn [map] in Hdec. injection Hdec as Hd Hrest. rewrite Hd.
    specialize (IH ds true
      (mk_world (fin_handle w) (fout_handle w)
         (fout_written w
            ++ (if labels_printed then [] else [labels_line d])
            ++ [values_line d])%list
         (stdout w
            ++ (if screen_flag
                then [hex_dump 16 packet; screen_text d]
                else []))%list) Hrest).
    cbv zeta in IH. destruct IH as [IHr IHw]. split.
    + rewrite IHr. cbn [List.length Nat.eqb negb orb]. now rewrite orb_true_r.
    + rewrite IHw. cbn [fout_written map].
      destruct ds; destruct labels_printed; cbn [app];
        rewrite <- ?app_assoc; reflexivity.
Qed.

(** The loop is left at the first packet that the decoder rejects. *)
Lemma stream_packets_raises screen_flag good bad rest decoded e :
  map decode_message good = map inr decoded ->
  decode_message bad = inl e ->
  forall labels_printed w,
    fst (stream_packets decode_message screen_flag (good ++ bad :: rest)
           labels_printed w) = inl (Raised e).
Proof.
  revert decoded. induction good as [|packet good IH];
    intros [|d ds] Hdec Hbad labels_printed w; try discriminate.
  - cbn [app stream_packets]. unfold bind.
    rewrite process_packet_run, Hbad. reflexivity.
  - cbn [app stream_packets]. unfold bind. rewrite process_packet_run.
    cbn [map] in Hdec. injection Hdec as Hd Hrest. rewrite Hd.
    now apply IH with ds.
Qed.

(** [main] when the databases and both files open. *)
Lemma main_streaming screen_flag data w :
  init_databases = inr tt ->
  open_source = inr data ->
  open_destination = inr tt ->
  main init_databases open_source open_destination decode_message
       screen_flag w =
  let packet_length := from_bytes_big (firstn 4 data) in
  let fin := mk_file data (List.length (firstn 4 data)) in
  let run := stream_packets decode_message screen_flag
               (read_packet fin (N.to_nat packet_length)) false
               (mk_world Opened Opened (fout_written w) (stdout w)) in
  match fst run with
  | inl a => (inl a, snd run)
  | inr _ =>
      (inr tt,
       mk_world Closed Closed (fout_written (snd run)) (stdout (snd run)))
  end.
Proof.
  intros -> -> ->. unfold main, bind, set_fin, set_fout, ret. cbv zeta.
  cbn [fin_handle fout_handle fout_written stdout read remaining content pos
       skipn Nat.add].
  destruct (stream_packets _ _ _ _ _) as [[a|b] w']; reflexivity.
Qed.

End DriverFacts.

(** ** Line breaks in the text written *)

Local Open Scope string_scope.

Lemma count_newlines_app a b :
  count_newlines (a ++ b) = count_newlines a + count_newlines b.
Proof.
  induction a as [|c a IH]; simpl; [reflexivity|]. rewrite IH. lia.
Qed.

Lemma count_newlines_uint d :
  count_newlines (NilEmpty.string_of_uint d) = 0.
Proof. induction d; simpl; auto. Qed.

Lemma count_newlines_element_name base_name i :
  count_newlines base_name = 0 ->
  count_newlines (element_name base_name i) = 0.
Proof.
  intros H. unfold element_name, str_of_nat.
  rewrite !count_newlines_app, H, count_newlines_uint. reflexivity.
Qed.

Lemma count_newlines_member_name base_name name :
  count_newlines base_name = 0 -> count_newlines name = 0 ->
  count_newlines (member_name base_name name) = 0.
Proof.
  intros H1 H2. unfold member_name.
  rewrite !count_newlines_app, H1, H2. reflexivity.
Qed.

Lemma flatten_single_line o :
  single_line o = true ->
  forall basePath,
    count_newlines basePath = 0 ->
    Forall leaf_on_one_line (flatten o basePath).
Proof.
  induction o as [rendered | elements IH | members IH]
    using EdsObject_nested_ind; intros Hs basePath Hbase.
  - simpl in Hs. apply Nat.eqb_eq in Hs.
    constructor; [split; assumption | constructor].
  - rewrite flatten_Array. cbn [single_line] in Hs. generalize 0 as i.
    induction IH as [|e rest He _ IHrest]; intros i; [constructor|].
    cbn [forallb] in Hs. apply andb_true_iff in Hs as [Hse Hsrest].
    cbn [flatten_elements]. apply Forall_app. split.
    + apply He; [assumption|]. now apply count_newlines_element_name.
    + now apply IHrest.
  - rewrite flatten_Container. cbn [single_line] in Hs.
    induction IH as [|m rest Hm _ IHrest]; [constructor|].
    cbn [forallb] in Hs. apply andb_true_iff in Hs as [Hsm Hsrest].
    apply andb_true_iff in Hsm as [Hname Hchild].
    apply Nat.eqb_eq in Hname.
    cbn [flatten_members]. apply Forall_app. split.
    + apply Hm; [assumption|]. now apply count_newlines_member_name.
    + now apply IHrest.
Qed.

Lemma count_newlines_rendered output_flag leaves :
  (output_flag =? "screen") = false ->
  Forall leaf_on_one_line leaves ->
  count_newlines (join (map (render_leaf output_flag) leaves)) = 0.
Proof.
  intros Hflag Hall. induction Hall as [|leaf rest [Hp Hv] _ IH];
    [reflexivity|].
  cbn [map join fold_right]. fold (join (map (render_leaf output_flag) rest)).
  rewrite count_newlines_app, IH. unfold render_leaf. rewrite Hflag.
  destruct (output_flag =? "labels");
    rewrite count_newlines_app, ?Hp, ?Hv; reflexivity.
Qed.

Lemma count_newlines_line decoded :
  single_line_record decoded = true ->
  count_newlines (labels_line decoded) = 1
  /\ count_newlines (values_line decoded) = 1.
Proof.
  unfold single_line_record. intros H.
  apply andb_true_iff in H as [Hname Hobj]. apply Nat.eqb_eq in Hname.
  pose proof (flatten_single_line _ Hobj _ Hname) as Hleaves.
  unfold labels_line, values_line.
  rewrite !count_newlines_app, !count_newlines_rendered
    by (assumption || reflexivity).
  split; reflexivity.
Qed.

Lemma count_newlines_rows rows :
  forallb single_line_record rows = true ->
  count_newlines (join (map values_line rows)) = List.length rows.
Proof.
  induction rows as [|d rows IH]; intros H; [reflexivity|].
  cbn [forallb] in H. apply andb_true_iff in H as [Hd Hrows].
  cbn [map join fold_right List.length].
  fold (join (map values_line rows)).
  rewrite count_newlines_app, IH by assumption.
  destruct (count_newlines_line d Hd) as [_ ->]. reflexivity.
Qed.

(** * Main results *)

Local Open Scope list_scope.

Lemma read_packet_length_bound n f :
  length (read_packet f n) <= length (remaining f).
Proof.
  revert f.
  apply (read_packet_loop_ind n
           (fun f ps => length ps <= length (remaining f))).
  - intros f _. simpl. lia.
  - intros f p g E IH. apply next_packet_decreases in E. simpl. lia.
Qed.

Lemma read_packet_reads n f :
  read_packet f n =
  map (fun k => fst (read (advance f n k) n))
      (seq 0 (length (read_packet f n))).
Proof.
  revert f.
  apply (read_packet_loop_ind n
           (fun f ps =>
              ps = map (fun k => fst (read (advance f n k) n))
                       (seq 0 (length ps)))).
  - reflexivity.
  - intros f p g E IH. apply next_packet_Some in E as [E _].
    cbn [length seq map advance]. rewrite E. cbn [fst]. f_equal.
    rewrite <- seq_shift, map_map. cbn [advance]. rewrite E. exact IH.
Qed.

(** C1 (as amended). For every source and every positive packet length, a
    read that returns some bytes but fewer than the packet length does not
    raise: the bytes it returns are yielded as a packet, the last one of
    the stream. *)
Theorem read_packet_short_read_yielded f n k :
  0 < n ->
  0 < length (fst (read (advance f n k) n)) < n ->
  nth_error (read_packet f n) k = Some (fst (read (advance f n k) n))
  /\ length (read_packet f n) = S k.
Proof.
  intros Hn [Hpos Hshort].
  assert (Hk : nth_error (read_packet f n) k
               = Some (fst (read (advance f n k) n))).
  { rewrite read_packet_nth_error.
    destruct (fst (read (advance f n k) n)); [simpl in Hpos; lia | reflexivity]. }
  split; [assumption|].
  assert (Hnext : nth_error (read_packet f n) (S k) = None).
  { rewrite read_packet_nth_error, short_read_then_eof by assumption.
    reflexivity. }
  apply nth_error_None in Hnext.
  assert (k < length (read_packet f n))
    by (apply nth_error_Some; rewrite Hk; discriminate).
  lia.
Qed.

Lemma read_packet_short_read_yielded_witness :
  nth_error (read_packet (mk_file truncated_source 4) 8) 1
  = Some [x09; x0a; x0b]
  /\ length (read_packet (mk_file truncated_source 4) 8) = 2.
Proof.
  apply (read_packet_short_read_yielded (mk_file truncated_source 4) 8 1);
    simpl; lia.
Defined.

(** C1 as stated fails: with a packet length of 8 and a trailing fragment
    of 3 bytes, the second read returns 3 bytes, the stream yields them as
    a packet like any other, and a run of [main] over that file ends
    without an exception when the decoder accepts the fragment. *)
Lemma read_packet_trailing_fragment_counterexample :
  fst (read (advance (mk_file truncated_source 4) 8 1) 8) = [x09; x0a; x0b]
  /\ read_packet (mk_file truncated_source 4) 8
     = [[x01; x02; x03; x04; x05; x06; x07; x08]; [x09; x0a; x0b]]
  /\ fst (main (inr tt) (inr truncated_source) (inr tt)
            (fun _ => inr ("T"%string, Scalar "0")) false initial_world)
     = inr tt.
Proof. repeat split. Qed.

(** C9. For every source and every positive packet length, the stream is
    finite (no longer than the content left), its packets are what the
    successive reads of the source return, none of them is empty, and the
    read that follows the last packet returns zero bytes. *)
Theorem read_packet_stream f n :
  0 < n ->
  let packets := read_packet f n in
  length packets <= length (remaining f)
  /\ packets = map (fun k => fst (read (advance f n k) n))
                   (seq 0 (length packets))
  /\ Forall (fun packet => packet <> []) packets
  /\ fst (read (advance f n (length packets)) n) = [].
Proof.
  intros Hn packets. subst packets. repeat split.
  - apply read_packet_length_bound.
  - apply read_packet_reads.
  - apply read_packet_nonempty.
  - pose proof (read_packet_nth_error f n (length (read_packet f n))) as H.
    rewrite (proj2 (nth_error_None _ _)) in H by lia.
    destruct (fst (read (advance f n _) n)); [reflexivity | discriminate].
Qed.

Lemma read_packet_stream_witness :
  let packets := read_packet (mk_file two_packet_source 4) 8 in
  length packets <= 16
  /\ packets = map (fun k => fst (read (advance (mk_file two_packet_source 4) 8 k) 8))
                   (seq 0 (length packets))
  /\ Forall (fun packet => packet <> []) packets
  /\ fst (read (advance (mk_file two_packet_source 4) 8 (length packets)) 8)
     = [].
Proof.
  apply (read_packet_stream (mk_file two_packet_source 4) 8). lia.
Defined.

(** C10 (as amended). For a positive packet length, the packets yielded,
    put end to end, are exactly the content that follows the read
    position; and when the length of that content is not a multiple of the
    packet length, the stream is made of whole packets followed by one
    last packet, the bytes left after the whole ones, which is not empty
    and shorter than the packet length. *)
Theorem read_packet_covers_source f n :
  0 < n ->
  let len := length (remaining f) in
  concat (read_packet f n) = remaining f
  /\ (len mod n <> 0 ->
      exists whole,
        read_packet f n = whole ++ [skipn (len - len mod n) (remaining f)]
        /\ Forall (fun packet => length packet = n) whole
        /\ 0 < length (skipn (len - len mod n) (remaining f)) < n).
Proof.
  intros Hn len. split; [now apply read_packet_concat|].
  intros Hmod.
  destruct (read_packet_short_tail n Hn f Hmod) as (whole & Hps & Hall).
  exists whole. repeat split; try assumption; rewrite length_skipn; fold len.
  - pose proof (Nat.Div0.mod_le len n). lia.
  - pose proof (Nat.mod_upper_bound len n). pose proof (Nat.Div0.mod_le len n).
    lia.
Qed.

Lemma read_packet_covers_source_witness :
  concat (read_packet (mk_file truncated_source 4) 8)
  = [x01; x02; x03; x04; x05; x06; x07; x08; x09; x0a; x0b]
  /\ exists whole,
       read_packet (mk_file truncated_source 4) 8
       = whole ++ [[x09; x0a; x0b]]
       /\ Forall (fun packet => length packet = 8) whole
       /\ 0 < 3 < 8.
Proof.
  destruct (read_packet_covers_source (mk_file truncated_source 4) 8)
    as [Hconcat Htail]; [lia|].
  split; [exact Hconcat | apply Htail; simpl; discriminate].
Defined.

(** C10 as stated fails for a packet length of 0, which a header of four
    zero bytes gives: the three bytes that follow are not a multiple of 0,
    yet nothing is yielded, and the packets yielded do not make up the
    content that follows the read position. *)
Lemma read_packet_zero_length_counterexample :
  remaining (mk_file zero_header_source 4) = [x01; x02; x03]
  /\ read_packet (mk_file zero_header_source 4) 0 = []
  /\ concat (read_packet (mk_file zero_header_source 4) 0)
     <> remaining (mk_file zero_header_source 4).
Proof. repeat split. discriminate. Qed.

Local Open Scope string_scope.

(** C2. In each of the three output modes, [tlm_display_string] appends
    to [message] the rendering of the leaves of the tree in depth-first
    pre-order, and changes nothing else: the leaves of a scalar are the one
    pair of its path and rendered value; the leaves of an array are those
    of its elements at indices 0 to length-1 in ascending order, under the
    paths [basePath[i]]; the leaves of a container are those of its
    members in declared order, under the paths [basePath.name]. *)
Theorem tlm_display_string_preorder output_flag tree basePath message w
    rendered elements members :
  recognized output_flag = true ->
  tlm_display_string output_flag tree basePath message w
  = (inr (message
          ++ join (map (render_leaf output_flag) (flatten tree basePath))),
     w)
  /\ flatten (Scalar rendered) basePath = [(basePath, rendered)]
  /\ flatten (Array elements) basePath
     = flat_map (fun ie => flatten (snd ie)
                             (basePath ++ "[" ++ str_of_nat (fst ie) ++ "]"))
                (combine (seq 0 (List.length elements)) elements)
  /\ flatten (Container members) basePath
     = flat_map (fun item => flatten (snd item)
                               (basePath ++ "." ++ fst item))
                members.
Proof.
  intros Hflag. repeat split.
  - now apply tlm_display_string_refines_flatten.
  - rewrite flatten_Array. apply flatten_elements_indexed.
  - rewrite flatten_Container. apply flatten_members_declared.
Qed.

Lemma tlm_display_string_preorder_witness :
  tlm_display_string "labels"
    (Container [("a", Array [Scalar "1"; Scalar "2"]); ("b", Scalar "3")])
    "T" "" initial_world
  = (inr "T.a[0], T.a[1], T.b, ", initial_world)
  /\ flatten (Scalar "1") "T" = [("T", "1")]
  /\ flatten (Array [Scalar "1"; Scalar "2"]) "T"
     = [("T[0]", "1"); ("T[1]", "2")]
  /\ flatten (Container [("a", Scalar "1"); ("b", Scalar "2")]) "T"
     = [("T.a", "1"); ("T.b", "2")].
Proof.
  apply (tlm_display_string_preorder "labels"
           (Container [("a", Array [Scalar "1"; Scalar "2"]); ("b", Scalar "3")])
           "T" "" initial_world "1" [Scalar "1"; Scalar "2"]
           [("a", Scalar "1"); ("b", Scalar "2")]).
  reflexivity.
Defined.

(** C4. The text returned by [tlm_display_string] depends on its
    arguments only, not on the state of the process; and for two objects
    of the same shape the text returned in ['labels'] mode is the same,
    whatever the values of the leaves, the state being left as it was. *)
Theorem tlm_display_string_shape_determined a b output_flag base_name
    message w w' :
  same_shape a b = true ->
  fst (tlm_display_string output_flag a base_name message w)
  = fst (tlm_display_string output_flag a base_name message w')
  /\ tlm_display_string "labels" a base_name message w
     = tlm_display_string "labels" b base_name message w
  /\ snd (tlm_display_string "labels" a base_name message w) = w.
Proof.
  intros Hshape. split; [apply tlm_display_string_result_pure|].
  rewrite !tlm_display_string_refines_flatten by reflexivity.
  rewrite !render_leaf_labels.
  rewrite (same_shape_paths a b Hshape). split; reflexivity.
Qed.

Lemma tlm_display_string_shape_determined_witness :
  let a := Container [("a", Scalar "1"); ("b", Array [Scalar "2"])] in
  let b := Container [("a", Scalar "3"); ("b", Array [Scalar "4"])] in
  let w' := mk_world Opened Opened ["x"] ["y"] in
  same_shape a b = true
  /\ fst (tlm_display_string "values" a "T" "" initial_world)
     = fst (tlm_display_string "values" a "T" "" w')
  /\ tlm_display_string "labels" a "T" "" initial_world
     = tlm_display_string "labels" b "T" "" initial_world
  /\ snd (tlm_display_string "labels" a "T" "" initial_world) = initial_world.
Proof.
  split; [reflexivity|].
  apply (tlm_display_string_shape_determined
           (Container [("a", Scalar "1"); ("b", Array [Scalar "2"])])
           (Container [("a", Scalar "3"); ("b", Array [Scalar "4"])])).
  reflexivity.
Defined.

(** C5. For every byte sequence and every positive [bytes_per_line],
    [hex_string] applied to the hexadecimal text of the bytes returns, for
    each byte in order, [0x] and its two uppercase hexadecimal digits
    followed by a space, and a line break after each byte whose number
    (from 1) is a multiple of [bytes_per_line]; dropping the white space and
    the [0x] prefixes of that text and reading the remaining digits gives
    back the bytes. *)
Theorem hex_string_round_trip data bytes_per_line :
  (0 < bytes_per_line)%Z ->
  hex_string (hex data) bytes_per_line = inr (hex_dump bytes_per_line data)
  /\ decode_hex_dump (hex_dump bytes_per_line data) = Some data.
Proof.
  intros Hpos. split.
  - apply hex_string_hex. lia.
  - unfold hex_dump.
    rewrite <- (hex_dump_from_indexed bytes_per_line data 0).
    apply decode_hex_dump_from.
Qed.

Lemma hex_string_round_trip_witness :
  hex_string (hex [x00; xab; x10; xff; x7e]) 2
  = inr ("0x00 0xAB " ++ newline ++ "0x10 0xFF " ++ newline ++ "0x7E ")
  /\ decode_hex_dump
       ("0x00 0xAB " ++ newline ++ "0x10 0xFF " ++ newline ++ "0x7E ")
     = Some [x00; xab; x10; xff; x7e].
Proof.
  apply (hex_string_round_trip [x00; xab; x10; xff; x7e] 2). reflexivity.
Defined.

(** C6 (as amended). With an output flag that is none of ['screen'],
    ['labels'] and ['values'], [tlm_display_string] does not fail: it
    prints its diagnostic once for each leaf of the object and returns
    normally, with the empty string when the object has a leaf and with
    [message] when it has none. *)
Theorem tlm_display_string_unrecognized_returns output_flag base_object
    base_name message w :
  recognized output_flag = false ->
  let leaves := List.length (flatten base_object base_name) in
  tlm_display_string output_flag base_object base_name message w
  = (inr (if (leaves =? 0)%nat then message else ""),
     mk_world (fin_handle w) (fout_handle w) (fout_written w)
              (stdout w ++ repeat went_wrong leaves)%list).
Proof.
  intros Hflag. now rewrite tlm_display_string_unrecognized.
Qed.

Lemma tlm_display_string_unrecognized_returns_witness :
  tlm_display_string "csv"
    (Container [("a", Scalar "1"); ("b", Scalar "2")]) "T" "kept"
    initial_world
  = (inr "", mk_world Unopened Unopened [] [went_wrong; went_wrong]).
Proof.
  apply (tlm_display_string_unrecognized_returns "csv"
           (Container [("a", Scalar "1"); ("b", Scalar "2")]) "T" "kept"
           initial_world).
  reflexivity.
Defined.

(** C6 as stated fails: with the flag ['csv'] the call on a scalar
    completes and returns the empty string, the text accumulated so far
    being lost, after one line printed on the console. *)
Lemma tlm_display_string_unrecognized_counterexample :
  tlm_display_string "csv" (Scalar "1") "T" "T.a, " initial_world
  = (inr "",
     mk_world Unopened Unopened []
       ["Something went wrong in tlm_display_string"]).
Proof. reflexivity. Qed.

Local Open Scope list_scope.

Lemma read_packet_zero f : read_packet f 0 = [].
Proof.
  rewrite read_packet_step.
  replace (next_packet f 0) with (@None (bytes * binary_file));
    [reflexivity|].
  symmetry. now apply next_packet_None.
Qed.

(** A run of the body of [main] to which the source delivers a 4-byte
    header giving a positive packet length and N packets of that length
    which all decode. *)
Lemma main_whole_packets (header : bytes) (packets : list bytes)
    decoded decode_message screen_flag :
  length header = 4 ->
  (0 < from_bytes_big header)%N ->
  Forall (fun packet => length packet = N.to_nat (from_bytes_big header))
         packets ->
  map decode_message packets = map inr decoded ->
  let run := main (inr tt) (inr (header ++ concat packets)) (inr tt)
                  decode_message screen_flag initial_world in
  fst run = inr tt
  /\ fout_written (snd run)
     = match decoded with
       | [] => []
       | first :: _ => labels_line first :: map values_line decoded
       end
  /\ length (fout_written (snd run))
     = match packets with
       | [] => 0
       | _ :: _ => length packets + 1
       end
  /\ (forallb single_line_record decoded = true ->
      count_newlines (join (fout_written (snd run)))
      = match packets with
        | [] => 0
        | _ :: _ => length packets + 1
        end).
Proof.
  intros Hheader Hpos Hall Hdec run. subst run.
  rewrite (main_streaming _ _ _ decode_message screen_flag
             (header ++ concat packets) initial_world eq_refl eq_refl eq_refl).
  cbv zeta.
  assert (Hfirst : firstn 4 (header ++ concat packets) = header).
  { rewrite firstn_app, Hheader, Nat.sub_diag, firstn_O, app_nil_r.
    rewrite <- Hheader. apply firstn_all. }
  rewrite Hfirst, Hheader.
  rewrite (read_packet_whole_packets (N.to_nat (from_bytes_big header)) packets);
    [| lia | assumption |].
  2:{ unfold remaining. cbn [pos content].
      rewrite skipn_app, Hheader, Nat.sub_diag, skipn_O.
      rewrite <- Hheader, skipn_all. reflexivity. }
  pose proof (stream_packets_decoded decode_message screen_flag packets
                decoded false (mk_world Opened Opened [] []) Hdec) as Hrun.
  cbv zeta in Hrun. cbn [fout_written stdout initial_world] in *.
  destruct Hrun as [Hres Hout]. rewrite Hres. cbn [fst snd fout_written].
  assert (Hlen : length packets = length decoded).
  { rewrite <- (length_map decode_message), Hdec. apply length_map. }
  rewrite Hout. repeat split.
  - destruct decoded; reflexivity.
  - destruct packets, decoded; try discriminate; [reflexivity|].
    cbn [app length]. rewrite length_map. simpl in *. lia.
  - intros Hlines.
    destruct packets as [|packet packets], decoded as [|d ds];
      try discriminate; [reflexivity|].
    cbn [app join fold_right]. fold (join (map values_line (d :: ds))).
    rewrite count_newlines_app, count_newlines_rows by assumption.
    cbn [forallb] in Hlines. apply andb_true_iff in Hlines as [Hd _].
    destruct (count_newlines_line d Hd) as [-> _]. simpl in *. lia.
Qed.

(** C3 as stated fails for N = 0: on a source that holds the length header
    and no packet, [main] ends normally and has written no line at all,
    not one. *)
Lemma main_no_packet_counterexample :
  let run := main (inr tt) (inr [x00; x00; x00; x08]) (inr tt) decode_pair
                  false initial_world in
  fst run = inr tt
  /\ fout_written (snd run) = []
  /\ length (fout_written (snd run)) <> 0 + 1.
Proof. repeat split. discriminate. Qed.

(** C7 (as amended). The packet length is the big-endian unsigned value
    of the first four bytes of the source (of the bytes there are, when
    fewer), and it is not validated: when it is 0, header absent included,
    [main] reads no packet, writes nothing, closes both files and ends
    normally, whatever follows the header. *)
Theorem main_zero_length_header (data : bytes) decode_message screen_flag :
  from_bytes_big (firstn 4 data) = 0%N ->
  main (inr tt) (inr data) (inr tt) decode_message screen_flag initial_world
  = (inr tt, mk_world Closed Closed [] []).
Proof.
  intros Hzero.
  rewrite (main_streaming _ _ _ decode_message screen_flag data initial_world
             eq_refl eq_refl eq_refl).
  cbv zeta. rewrite Hzero. cbn [N.to_nat]. rewrite read_packet_zero.
  reflexivity.
Qed.

Lemma main_zero_length_header_witness :
  main (inr tt) (inr zero_header_source) (inr tt) decode_pair true
       initial_world
  = (inr tt, mk_world Closed Closed [] []).
Proof.
  apply (main_zero_length_header zero_header_source decode_pair true).
  reflexivity.
Defined.

(** C7 as stated fails: a header of four zero bytes, and an empty source
    with no header at all, are not fatal; each run ends normally. *)
Lemma main_zero_length_counterexample :
  fst (main (inr tt) (inr zero_header_source) (inr tt) decode_pair false
         initial_world) = inr tt
  /\ fst (main (inr tt) (inr []) (inr tt) decode_pair false initial_world)
     = inr tt.
Proof. split; reflexivity. Qed.

(** C8 (as amended). Whatever the collaborators do, a run of [main] that
    ends normally has closed the source and the destination; a run ended
    by [sys.exit] has opened neither; and a run ended by an exception, such
    as one raised by the decoder during streaming, has closed neither:
    the handles opened so far are left open. *)
Theorem main_handles init_databases open_source open_destination
    decode_message screen_flag :
  let run := main init_databases open_source open_destination decode_message
                  screen_flag initial_world in
  match fst run with
  | inr _ =>
      fin_handle (snd run) = Closed /\ fout_handle (snd run) = Closed
  | inl (SysExit _) =>
      fin_handle (snd run) = Unopened /\ fout_handle (snd run) = Unopened
  | inl (Raised _) =>
      fin_handle (snd run) <> Closed /\ fout_handle (snd run) <> Closed
  end.
Proof.
  destruct init_databases as [e1 | []];
    [destruct e1; simpl; split; (reflexivity || discriminate) |].
  destruct open_source as [e2 | data];
    [destruct e2; simpl; split; (reflexivity || discriminate) |].
  destruct open_destination as [e3 | []];
    [simpl; split; discriminate |].
  cbv zeta.
  rewrite (main_streaming _ _ _ decode_message screen_flag data initial_world
             eq_refl eq_refl eq_refl).
  cbv zeta.
  pose proof (stream_packets_handles decode_message screen_flag
                (read_packet (mk_file data (length (firstn 4 data)))
                   (N.to_nat (from_bytes_big (firstn 4 data))))
                false
                (mk_world Opened Opened (fout_written initial_world)
                   (stdout initial_world))) as H.
  cbv zeta in H. destruct H as (Hin & Hout & Hexit).
  destruct (stream_packets _ _ _ _ _) as [[[e | code] | b] w'];
    cbn [fst snd fin_handle fout_handle] in *.
  - rewrite Hin, Hout. split; discriminate.
  - now elim (Hexit code).
  - split; reflexivity.
Qed.

(** C8 as stated fails: when the decoder raises on the second chunk of the
    source, [main] is left by that exception with the source and the
    destination still open. *)
Lemma main_decode_error_counterexample :
  let run := main (inr tt) (inr truncated_source) (inr tt) decode_pair false
                  initial_world in
  fst run = inl (Raised DecodeError)
  /\ fin_handle (snd run) = Opened
  /\ fout_handle (snd run) = Opened.
Proof. repeat split. Qed.

(** * Further properties *)

(** ** read_packet *)

Local Open Scope list_scope.

(** The stream depends on the content left to read only. *)
Lemma read_packet_remaining_ext f g n :
  remaining f = remaining g -> read_packet f n = read_packet g n.
Proof.
  intros H. apply nth_error_ext. intros k.
  rewrite !read_packet_nth_error, !read_data, !remaining_advance, H.
  reflexivity.
Qed.

Lemma read_packet_cons f n :
  0 < n -> remaining f <> [] ->
  read_packet f n
  = firstn n (remaining f)
    :: read_packet (mk_file (skipn n (remaining f)) 0) n.
Proof.
  intros Hn Hne. rewrite read_packet_step.
  destruct (next_packet f n) as [[p g]|] eqn:E.
  - apply next_packet_Some in E as [E _].
    assert (Hp : p = firstn n (remaining f)) by (now rewrite <- read_data, E).
    assert (Hg : remaining g = skipn n (remaining f))
      by (now rewrite <- remaining_read, E).
    subst p. f_equal. apply read_packet_remaining_ext.
    rewrite Hg. unfold remaining. reflexivity.
  - apply next_packet_None in E. apply read_empty_at_eof in E; tauto.
Qed.

Lemma ceil_div_step len n :
  0 < n -> 0 < len ->
  (len + n - 1) / n = S ((len - n + n - 1) / n).
Proof.
  intros Hn Hlen. destruct (Nat.le_gt_cases len n) as [Hle | Hgt].
  - replace (len - n) with 0 by lia. cbn [Nat.add].
    rewrite (Nat.div_small (n - 1) n) by lia.
    symmetry. apply Nat.div_unique with (len - 1); lia.
  - replace (len + n - 1) with ((len - n + n - 1) + 1 * n) by lia.
    rewrite Nat.div_add by lia. lia.
Qed.

(** X1. For a positive packet length, the number of packets yielded is the
    number of bytes left to read divided by the packet length, rounded
    up. *)
Theorem read_packet_count f n :
  0 < n ->
  length (read_packet f n) = (length (remaining f) + n - 1) / n.
Proof.
  intros Hn. revert f.
  apply (read_packet_loop_ind n
           (fun f ps => length ps = (length (remaining f) + n - 1) / n)).
  - intros f E. apply next_packet_None in E.
    apply read_empty_at_eof in E; [|assumption].
    rewrite E. simpl. symmetry. apply Nat.div_small. lia.
  - intros f p g E IH. apply next_packet_Some in E as [E Hne].
    assert (Hp : p = firstn n (remaining f)) by (now rewrite <- read_data, E).
    assert (Hg : remaining g = skipn n (remaining f))
      by (now rewrite <- remaining_read, E).
    assert (0 < length (remaining f)).
    { destruct (remaining f); [|simpl; lia].
      rewrite firstn_nil in Hp. contradiction. }
    cbn [length]. rewrite IH, Hg, length_skipn.
    symmetry. now apply ceil_div_step.
Qed.

Lemma read_packet_count_witness :
  length (read_packet (mk_file truncated_source 4) 8) = (11 + 8 - 1) / 8.
Proof.
  apply (read_packet_count (mk_file truncated_source 4) 8). lia.
Defined.

(** X2. For a positive packet length, every packet yielded holds at least
    one byte and at most the packet length, and every packet but the last
    holds exactly the packet length. *)
Theorem read_packet_sizes f n :
  0 < n ->
  Forall (fun packet => 1 <= length packet <= n) (read_packet f n)
  /\ Forall (fun packet => length packet = n) (removelast (read_packet f n)).
Proof.
  intros Hn. revert f.
  apply (read_packet_loop_ind n
           (fun f ps =>
              Forall (fun packet => 1 <= length packet <= n) ps
              /\ Forall (fun packet => length packet = n) (removelast ps))).
  - intros f _. split; constructor.
  - intros f p g E [IHall IHinit].
    pose proof E as E'. apply next_packet_Some in E' as [E' Hne].
    assert (Hp : p = firstn n (remaining f)) by (now rewrite <- read_data, E').
    assert (Hg : remaining g = skipn n (remaining f))
      by (now rewrite <- remaining_read, E').
    split.
    + constructor; [|assumption]. split.
      * destruct p; [contradiction | simpl; lia].
      * rewrite Hp, length_firstn. lia.
    + destruct (read_packet g n) as [|q qs] eqn:Eg; [constructor|].
      cbn [removelast]. constructor; [|exact IHinit].
      rewrite Hp, length_firstn.
      destruct (Nat.le_gt_cases n (length (remaining f))) as [Hle | Hgt];
        [lia|].
      rewrite read_packet_at_eof in Eg; [discriminate|].
      rewrite Hg. apply skipn_all2. lia.
Qed.

Lemma read_packet_sizes_witness :
  Forall (fun packet => 1 <= length packet <= 8)
         (read_packet (mk_file truncated_source 4) 8)
  /\ Forall (fun packet => length packet = 8)
            (removelast (read_packet (mk_file truncated_source 4) 8)).
Proof.
  apply (read_packet_sizes (mk_file truncated_source 4) 8). lia.
Defined.

Lemma read_packet_boundary f n k (a b : bytes) :
  0 < n ->
  remaining f = a ++ b ->
  length a = k * n ->
  read_packet f n
  = read_packet (mk_file a 0) n ++ read_packet (mk_file b 0) n.
Proof.
  intros Hn. revert f a. induction k as [|k IH]; intros f a Hf Ha.
  - destruct a; [|discriminate]. simpl in Hf.
    rewrite (read_packet_at_eof (mk_file [] 0)) by reflexivity.
    now apply read_packet_remaining_ext.
  - assert (Hlen : n <= length a) by (simpl in Ha; lia).
    assert (Hane : a <> []) by (destruct a; [simpl in Hlen; lia | discriminate]).
    assert (Hfne : remaining f <> [])
      by (rewrite Hf; destruct a; [contradiction | discriminate]).
    rewrite (read_packet_cons f) by assumption.
    rewrite (read_packet_cons (mk_file a 0)) by assumption.
    cbn [remaining pos content skipn] in *.
    rewrite Hf, firstn_app, skipn_app.
    replace (n - length a) with 0 by lia.
    rewrite firstn_O, skipn_O, app_nil_r. cbn [app]. f_equal.
    apply IH; [reflexivity|]. rewrite length_skipn. simpl in Ha. lia.
Qed.

(** X3. Packets do not straddle a packet boundary of the content: when
    the content left to read is [a] followed by [b] and [a] is a whole
    number of packets long, the stream is the stream over [a] followed by
    the stream over [b]. *)
Theorem read_packet_app f n k (a b : bytes) :
  0 < n ->
  remaining f = a ++ b ->
  length a = k * n ->
  read_packet f n
  = read_packet (mk_file a 0) n ++ read_packet (mk_file b 0) n.
Proof. apply read_packet_boundary. Qed.

Lemma read_packet_app_witness :
  read_packet (mk_file truncated_source 4) 8
  = read_packet (mk_file [x01; x02; x03; x04; x05; x06; x07; x08] 0) 8
    ++ read_packet (mk_file [x09; x0a; x0b] 0) 8.
Proof.
  apply (read_packet_app (mk_file truncated_source 4) 8 1
           [x01; x02; x03; x04; x05; x06; x07; x08] [x09; x0a; x0b]).
  - lia.
  - reflexivity.
  - reflexivity.
Defined.

(** ** hex_string *)

Local Open Scope string_scope.

(** Induction on a text two characters at a time, as the loop of
    [hex_string] goes. *)
Lemma string_pair_ind (P : string -> Prop) :
  P "" ->
  (forall c, P (String c "")) ->
  (forall c0 c1 s, P s -> P (String c0 (String c1 s))) ->
  forall s, P s.
Proof.
  intros Hnil Hone Hpair s.
  enough (H : P s /\ forall c, P (String c s)) by apply H.
  induction s as [|c s [IH1 IH2]]; split; auto.
Qed.

Lemma hex_string_loop_outcome bytes_per_line s :
  bytes_per_line <> 0%Z ->
  forall count hex_str,
    match hex_string_loop s bytes_per_line count hex_str with
    | inr _ => Nat.even (String.length s) = true
    | inl e => e = IndexError /\ Nat.even (String.length s) = false
    end.
Proof.
  intros Hbpl. apply Z.eqb_neq in Hbpl.
  induction s as [|c|c0 c1 s IH] using string_pair_ind; intros count hex_str.
  - reflexivity.
  - split; reflexivity.
  - cbn [hex_string_loop String.length Nat.even]. rewrite Hbpl. apply IH.
Qed.

(** X4. With a non-zero [bytes_per_line], [hex_string] returns a text
    exactly when its argument has an even number of characters, whatever
    the characters are; on an odd number of characters it raises
    [IndexError]. *)
Theorem hex_string_even_or_index_error s bytes_per_line :
  bytes_per_line <> 0%Z ->
  match hex_string s bytes_per_line with
  | inr _ => Nat.even (String.length s) = true
  | inl e => e = IndexError /\ Nat.even (String.length s) = false
  end.
Proof. intros H. now apply hex_string_loop_outcome. Qed.

Lemma hex_string_even_or_index_error_witness :
  match hex_string "0a1" 16 with
  | inr _ => Nat.even 3 = true
  | inl e => e = IndexError /\ Nat.even 3 = false
  end.
Proof.
  apply (hex_string_even_or_index_error "0a1" 16). discriminate.
Defined.

(** X5. [hex_string] raises [ZeroDivisionError] exactly when
    [bytes_per_line] is 0 and the text holds at least two characters: the
    empty text is returned as the empty text even then. *)
Theorem hex_string_zero_division s bytes_per_line :
  hex_string s bytes_per_line = inl ZeroDivisionError
  <-> bytes_per_line = 0%Z /\ 2 <= String.length s.
Proof.
  split.
  - intros H. destruct (Z.eq_dec bytes_per_line 0) as [-> | Hne].
    + split; [reflexivity|].
      destruct s as [|c0 [|c1 s]]; try discriminate. simpl. lia.
    + pose proof (hex_string_even_or_index_error s bytes_per_line Hne) as Ho.
      rewrite H in Ho. destruct Ho as [Ho _]. discriminate.
  - intros [-> Hlen].
    destruct s as [|c0 [|c1 s]]; simpl in Hlen; try lia. reflexivity.
Qed.

Lemma mod_opp_eqb (count bytes_per_line : Z) :
  ((count mod - bytes_per_line =? 0) = (count mod bytes_per_line =? 0))%Z.
Proof.
  destruct (Z.eq_dec bytes_per_line 0) as [-> | Hne]; [reflexivity|].
  destruct (Z.eqb_spec (count mod bytes_per_line) 0) as [E | E].
  - apply Z.eqb_eq. now apply Z.mod_opp_r_z.
  - apply Z.eqb_neq. intros E'. apply E.
    rewrite <- (Z.opp_involutive bytes_per_line).
    apply Z.mod_opp_r_z; [lia | assumption].
Qed.

Lemma hex_string_loop_opp bytes_per_line s :
  forall count hex_str,
    hex_string_loop s (- bytes_per_line) count hex_str
    = hex_string_loop s bytes_per_line count hex_str.
Proof.
  induction s as [|c|c0 c1 s IH] using string_pair_ind; intros count hex_str;
    try reflexivity.
  cbn [hex_string_loop]. rewrite mod_opp_eqb, IH.
  replace (- bytes_per_line =? 0)%Z with (bytes_per_line =? 0)%Z;
    [reflexivity|].
  destruct (Z.eqb_spec bytes_per_line 0), (Z.eqb_spec (- bytes_per_line) 0);
    try reflexivity; lia.
Qed.

(** X6. The sign of [bytes_per_line] does not matter: a negative value
    breaks the lines as its absolute value does. *)
Theorem hex_string_negative_bytes_per_line s bytes_per_line :
  hex_string s (- bytes_per_line) = hex_string s bytes_per_line.
Proof. apply hex_string_loop_opp. Qed.

Lemma div_succ (count bytes_per_line : Z) :
  (0 < bytes_per_line)%Z ->
  ((count + 1) / bytes_per_line
   = count / bytes_per_line
     + (if (count + 1) mod bytes_per_line =? 0 then 1 else 0))%Z.
Proof.
  intros Hpos.
  pose proof (Z.div_mod count bytes_per_line ltac:(lia)) as H1.
  pose proof (Z.div_mod (count + 1) bytes_per_line ltac:(lia)) as H2.
  pose proof (Z.mod_pos_bound count bytes_per_line Hpos) as B1.
  pose proof (Z.mod_pos_bound (count + 1) bytes_per_line Hpos) as B2.
  destruct (Z.eqb_spec ((count + 1) mod bytes_per_line) 0) as [E | E]; nia.
Qed.

Lemma render_byte_size bytes_per_line count b :
  count_newlines (render_byte bytes_per_line count b)
  = (if (count mod bytes_per_line =? 0)%Z then 1 else 0)
  /\ String.length (render_byte bytes_per_line count b)
     = 5 + (if (count mod bytes_per_line =? 0)%Z then 1 else 0).
Proof.
  unfold render_byte.
  destruct (count mod bytes_per_line =? 0)%Z; destruct b; split; reflexivity.
Qed.

Lemma string_length_app (a b : string) :
  String.length (a ++ b) = String.length a + String.length b.
Proof. induction a as [|c a IH]; simpl; [reflexivity | now rewrite IH]. Qed.

Lemma hex_dump_from_size bytes_per_line data :
  (0 < bytes_per_line)%Z ->
  forall count,
    (Z.of_nat (count_newlines (hex_dump_from bytes_per_line count data))
     = (count + Z.of_nat (List.length data)) / bytes_per_line
       - count / bytes_per_line)%Z
    /\ String.length (hex_dump_from bytes_per_line count data)
       = 5 * List.length data
         + count_newlines (hex_dump_from bytes_per_line count data).
Proof.
  intros Hpos. induction data as [|b rest IH]; intros count.
  - simpl. rewrite Z.add_0_r. split; lia.
  - cbn [hex_dump_from List.length].
    rewrite count_newlines_app, string_length_app.
    destruct (render_byte_size bytes_per_line (count + 1) b) as [-> ->].
    destruct (IH (count + 1)%Z) as [IHn IHl]. rewrite IHl. split; [|lia].
    rewrite Nat2Z.inj_add, IHn.
    replace (count + Z.of_nat (S (List.length rest)))%Z
      with (count + 1 + Z.of_nat (List.length rest))%Z by lia.
    rewrite (div_succ count bytes_per_line Hpos).
    destruct ((count + 1) mod bytes_per_line =? 0)%Z; lia.
Qed.

(** X7. For a positive [bytes_per_line], the dump of [n] bytes holds
    [n / bytes_per_line] line breaks (rounded down) and five characters for
    each byte besides them. *)
Theorem hex_string_size data bytes_per_line :
  (0 < bytes_per_line)%Z ->
  exists text,
    hex_string (hex data) bytes_per_line = inr text
    /\ Z.of_nat (count_newlines text)
       = (Z.of_nat (List.length data) / bytes_per_line)%Z
    /\ String.length text = 5 * List.length data + count_newlines text.
Proof.
  intros Hpos. exists (hex_dump_from bytes_per_line 0 data).
  unfold hex_string. rewrite hex_string_loop_hex by lia.
  destruct (hex_dump_from_size bytes_per_line data Hpos 0%Z) as [Hn Hl].
  repeat split; [|assumption].
  rewrite Hn. rewrite Z.add_0_l, Zdiv_0_l. lia.
Qed.

Lemma hex_string_size_witness :
  exists text,
    hex_string (hex [x00; xab; x10; xff; x7e]) 2 = inr text
    /\ Z.of_nat (count_newlines text) = (5 / 2)%Z
    /\ String.length text = 5 * 5 + count_newlines text.
Proof.
  apply (hex_string_size [x00; xab; x10; xff; x7e] 2). reflexivity.
Defined.

(** ** tlm_display_string *)

Local Open Scope string_scope.

(** X8. The text accumulated in [message] is kept in front of what a
    call adds, for every object, exactly when the output flag is one of
    the three known ones: with any other flag a leaf discards it. *)
Theorem tlm_display_string_message_prefix output_flag :
  recognized output_flag = true
  <-> (forall base_object base_name message w,
         fst (tlm_display_string output_flag base_object base_name message w)
         = match fst (tlm_display_string output_flag base_object base_name
                        "" w) with
           | inr text => inr (message ++ text)
           | inl a => inl a
           end).
Proof.
  split.
  - intros Hflag base_object base_name message w.
    now rewrite !tlm_display_string_refines_flatten.
  - intros H. destruct (recognized output_flag) eqn:E; [reflexivity|].
    specialize (H (Scalar "") "" "x" initial_world).
    rewrite !tlm_display_string_unrecognized in H by assumption.
    discriminate.
Qed.

(** X9. An object without a scalar leaf (nested empty arrays and
    containers) adds nothing and prints nothing, whatever the output
    flag: [message] is returned as it is. *)
Theorem tlm_display_string_no_leaf output_flag base_object base_name message w :
  flatten base_object base_name = [] ->
  tlm_display_string output_flag base_object base_name message w
  = (inr message, w).
Proof.
  intros Hleaves. destruct (recognized output_flag) eqn:E.
  - rewrite tlm_display_string_refines_flatten, Hleaves by assumption.
    cbn [map join fold_right]. now rewrite append_empty_r.
  - rewrite tlm_display_string_unrecognized, Hleaves by assumption.
    cbv zeta. cbn [List.length Nat.eqb]. now rewrite complained_0.
Qed.

Lemma tlm_display_string_no_leaf_witness :
  tlm_display_string "csv" (Array [Container []; Array [Array []]]) "T"
    "T.a, " initial_world
  = (inr "T.a, ", initial_world).
Proof.
  apply (tlm_display_string_no_leaf "csv"
           (Array [Container []; Array [Array []]]) "T" "T.a, " initial_world).
  reflexivity.
Defined.

Lemma flatten_leaf_values o :
  forall basePath, map snd (flatten o basePath) = leaf_values o.
Proof.
  induction o as [rendered | elements IH | members IH]
    using EdsObject_nested_ind; intros basePath.
  - reflexivity.
  - rewrite flatten_Array. cbn [leaf_values]. generalize 0 as i.
    induction IH as [|e rest He _ IHrest]; intros i; [reflexivity|].
    cbn [flatten_elements flat_map]. rewrite map_app, He, IHrest.
    reflexivity.
  - rewrite flatten_Container. cbn [leaf_values].
    induction IH as [|m rest Hm _ IHrest]; [reflexivity|].
    cbn [flatten_members flat_map]. rewrite map_app, Hm, IHrest.
    reflexivity.
Qed.

(** X10. In ['values'] mode only the rendered leaves count: the text is
    [message] followed by each rendered leaf value and [", "], in order,
    so that two objects with the same leaf values give the same text,
    whatever their base names, their member names and the way the leaves
    are nested in arrays and containers. *)
Theorem tlm_display_string_values_ignore_name object1 object2 name1 name2
    message w :
  leaf_values object1 = leaf_values object2 ->
  tlm_display_string "values" object1 name1 message w
  = (inr (message
          ++ join (map (fun value => value ++ ", ") (leaf_values object1))),
     w)
  /\ tlm_display_string "values" object1 name1 message w
     = tlm_display_string "values" object2 name2 message w.
Proof.
  intros Hsame.
  rewrite !tlm_display_string_refines_flatten by reflexivity.
  rewrite !render_leaf_values, !flatten_leaf_values, Hsame.
  split; reflexivity.
Qed.

Lemma tlm_display_string_values_ignore_name_witness :
  tlm_display_string "values"
    (Container [("a", Scalar "1"); ("b", Array [Scalar "2"; Scalar "3"])])
    "T" "" initial_world
  = (inr "1, 2, 3, ", initial_world)
  /\ tlm_display_string "values"
       (Container [("a", Scalar "1"); ("b", Array [Scalar "2"; Scalar "3"])])
       "T" "" initial_world
     = tlm_display_string "values"
         (Array [Container [("x", Scalar "1"); ("y", Scalar "2")]; Scalar "3"])
         "Other" "" initial_world.
Proof.
  apply (tlm_display_string_values_ignore_name
           (Container [("a", Scalar "1"); ("b", Array [Scalar "2"; Scalar "3"])])
           (Array [Container [("x", Scalar "1"); ("y", Scalar "2")]; Scalar "3"])
           "T" "Other" "" initial_world).
  reflexivity.
Defined.

Lemma count_newlines_spaces n : count_newlines (spaces n) = 0.
Proof. induction n; simpl; auto. Qed.

Lemma count_newlines_screen leaves :
  Forall leaf_on_one_line leaves ->
  count_newlines (join (map (render_leaf "screen") leaves))
  = List.length leaves.
Proof.
  intros Hall. induction Hall as [|leaf rest [Hp Hv] _ IH]; [reflexivity|].
  cbn [map join fold_right List.length].
  fold (join (map (render_leaf "screen") rest)).
  rewrite count_newlines_app, IH.
  change (render_leaf "screen" leaf)
    with (ljust 60 (fst leaf) ++ " = " ++ snd leaf ++ newline).
  unfold ljust.
  rewrite !count_newlines_app, Hp, Hv, count_newlines_spaces. reflexivity.
Qed.

(** X11. When the type name, the member names and the rendered values of
    an object hold no line break, its ['labels'] and ['values'] texts hold
    none either, and its ['screen'] text holds one line break for each
    leaf. *)
Theorem tlm_display_string_line_breaks base_object base_name w :
  single_line_record (base_name, base_object) = true ->
  exists labels values screen,
    tlm_display_string "labels" base_object base_name "" w = (inr labels, w)
    /\ tlm_display_string "values" base_object base_name "" w
       = (inr values, w)
    /\ tlm_display_string "screen" base_object base_name "" w
       = (inr screen, w)
    /\ count_newlines labels = 0
    /\ count_newlines values = 0
    /\ count_newlines screen
       = List.length (flatten base_object base_name).
Proof.
  unfold single_line_record. cbn [fst snd]. intros H.
  apply andb_true_iff in H as [Hname Hobj]. apply Nat.eqb_eq in Hname.
  pose proof (flatten_single_line _ Hobj _ Hname) as Hleaves.
  do 3 eexists.
  rewrite !tlm_display_string_refines_flatten by reflexivity.
  repeat split.
  - now apply count_newlines_rendered.
  - now apply count_newlines_rendered.
  - now apply count_newlines_screen.
Qed.

Lemma tlm_display_string_line_breaks_witness :
  exists labels values screen,
    tlm_display_string "labels"
      (Container [("a", Array [Scalar "1"; Scalar "2"]); ("b", Scalar "3")])
      "T" "" initial_world = (inr labels, initial_world)
    /\ tlm_display_string "values"
         (Container [("a", Array [Scalar "1"; Scalar "2"]); ("b", Scalar "3")])
         "T" "" initial_world = (inr values, initial_world)
    /\ tlm_display_string "screen"
         (Container [("a", Array [Scalar "1"; Scalar "2"]); ("b", Scalar "3")])
         "T" "" initial_world = (inr screen, initial_world)
    /\ count_newlines labels = 0
    /\ count_newlines values = 0
    /\ count_newlines screen = 3.
Proof.
  apply (tlm_display_string_line_breaks
           (Container [("a", Array [Scalar "1"; Scalar "2"]); ("b", Scalar "3")])
           "T" initial_world).
  reflexivity.
Defined.

(** *** Distinct paths *)

Lemma append_inj_l (base a b : string) : base ++ a = base ++ b -> a = b.
Proof.
  induction base as [|c base IH]; simpl; intros H; [assumption|].
  injection H as H. auto.
Qed.

(** Two texts without the character [c], each followed by [c]: the place
    of the first [c] tells them apart. *)
Lemma split_at_char c a b s1 s2 :
  has_char c a = false -> has_char c b = false ->
  a ++ String c s1 = b ++ String c s2 -> a = b.
Proof.
  revert b. induction a as [|x a IH]; intros [|y b] Ha Hb H; simpl in *.
  - reflexivity.
  - injection H as Hc _. subst y. rewrite Ascii.eqb_refl in Hb. discriminate.
  - injection H as Hc _. subst x. rewrite Ascii.eqb_refl in Ha. discriminate.
  - injection H as Hx H. subst y.
    apply orb_false_iff in Ha as [_ Ha]. apply orb_false_iff in Hb as [_ Hb].
    f_equal. now apply IH.
Qed.

Lemma delimited_head c rest :
  delimited (String c rest) -> c = "."%char \/ c = "["%char.
Proof.
  intros [H | (c' & rest' & H & Hc)]; [discriminate|].
  injection H as -> _. assumption.
Qed.

Lemma plain_name_head c rest :
  plain_name (String c rest) = true ->
  c <> "."%char /\ c <> "["%char /\ plain_name rest = true.
Proof.
  unfold plain_name. cbn [has_char]. intros H.
  apply andb_true_iff in H as [H1 H2].
  apply negb_true_iff in H1, H2.
  apply orb_false_iff in H1 as [H1 H1'], H2 as [H2 H2'].
  apply Ascii.eqb_neq in H1, H2.
  rewrite H1', H2'. repeat split; congruence.
Qed.

(** Two plain names, each followed by nothing or by a delimiter. *)
Lemma split_plain a b s1 s2 :
  plain_name a = true -> plain_name b = true ->
  delimited s1 -> delimited s2 ->
  a ++ s1 = b ++ s2 -> a = b.
Proof.
  revert b. induction a as [|x a IH]; intros [|y b] Ha Hb D1 D2 H; simpl in H.
  - reflexivity.
  - subst s1. apply delimited_head in D1.
    apply plain_name_head in Hb as (? & ? & _). tauto.
  - subst s2. apply delimited_head in D2.
    apply plain_name_head in Ha as (? & ? & _). tauto.
  - injection H as -> H.
    apply plain_name_head in Ha as (_ & _ & Ha).
    apply plain_name_head in Hb as (_ & _ & Hb).
    f_equal. now apply (IH b).
Qed.

Lemma has_char_uint c d :
  (c =? "]")%char = true -> has_char c (NilEmpty.string_of_uint d) = false.
Proof.
  intros Hc. apply Ascii.eqb_eq in Hc. subst c.
  induction d; simpl; auto.
Qed.

Lemma str_of_nat_inj i j : str_of_nat i = str_of_nat j -> i = j.
Proof.
  unfold str_of_nat. intros H.
  assert (Hu : Some (Nat.to_uint i) = Some (Nat.to_uint j))
    by (rewrite <- !NilEmpty.usu; now rewrite H).
  injection Hu as Hu.
  rewrite <- (DecimalNat.Unsigned.of_to i), <- (DecimalNat.Unsigned.of_to j).
  now rewrite Hu.
Qed.

(** The paths of two elements of an array, and of two members of a
    container, differ when the indices, or the names, do. *)
Lemma element_name_apart base_name i j s1 s2 :
  element_name base_name i ++ s1 = element_name base_name j ++ s2 -> i = j.
Proof.
  unfold element_name. rewrite !append_assoc. intros H.
  apply append_inj_l in H. cbn [append] in H. injection H as H.
  rewrite ?append_assoc in H. cbn [append] in H.
  apply str_of_nat_inj.
  apply (split_at_char "]" _ _ s1 s2); try assumption;
    unfold str_of_nat; now apply has_char_uint.
Qed.

Lemma member_name_apart base_name n1 n2 s1 s2 :
  plain_name n1 = true -> plain_name n2 = true ->
  delimited s1 -> delimited s2 ->
  member_name base_name n1 ++ s1 = member_name base_name n2 ++ s2 -> n1 = n2.
Proof.
  unfold member_name. rewrite !append_assoc. intros P1 P2 D1 D2 H.
  apply append_inj_l in H. cbn [append] in H. injection H as H.
  rewrite ?append_assoc in H.
  now apply (split_plain n1 n2 s1 s2).
Qed.

(** The path of a leaf is the path of the object followed by nothing or
    by a delimiter and more. *)
Lemma flatten_paths_shape o :
  forall basePath,
    Forall (fun path => exists s, path = basePath ++ s /\ delimited s)
           (map fst (flatten o basePath)).
Proof.
  induction o as [rendered | elements IH | members IH]
    using EdsObject_nested_ind; intros basePath.
  - constructor; [|constructor]. exists "". split.
    + now rewrite append_empty_r.
    + now left.
  - rewrite flatten_Array. generalize 0 as i.
    induction IH as [|e rest He _ IHrest]; intros i; [constructor|].
    cbn [flatten_elements]. rewrite map_app. apply Forall_app. split;
      [|apply IHrest].
    eapply Forall_impl; [|apply (He (element_name basePath i))].
    intros path (s & -> & _). unfold element_name.
    exists ("[" ++ str_of_nat i ++ "]" ++ s). split.
    + now rewrite !append_assoc.
    + right. cbn [append]. eauto.
  - rewrite flatten_Container.
    induction IH as [|m rest Hm _ IHrest]; [constructor|].
    cbn [flatten_members]. rewrite map_app. apply Forall_app. split;
      [|apply IHrest].
    eapply Forall_impl; [|apply (Hm (member_name basePath (fst m)))].
    intros path (s & -> & _). unfold member_name.
    exists ("." ++ fst m ++ s). split.
    + now rewrite !append_assoc.
    + right. cbn [append]. eauto.
Qed.

Lemma flatten_elements_paths basePath rest :
  forall i,
    Forall (fun path => exists k s,
                i <= k /\ path = element_name basePath k ++ s)
           (map fst (flatten_elements basePath rest i)).
Proof.
  induction rest as [|e rest IH]; intros i; [constructor|].
  cbn [flatten_elements]. rewrite map_app. apply Forall_app. split.
  - eapply Forall_impl; [|apply flatten_paths_shape].
    intros path (s & -> & _). exists i, s. auto.
  - eapply Forall_impl; [|apply (IH (S i))].
    intros path (k & s & Hk & ->). exists k, s. split; [lia | reflexivity].
Qed.

Lemma flatten_members_paths basePath rest :
  Forall (fun path => exists item s,
              In item rest
              /\ path = member_name basePath (fst item) ++ s
              /\ delimited s)
         (map fst (flatten_members basePath rest)).
Proof.
  induction rest as [|m rest IH]; [constructor|].
  cbn [flatten_members]. rewrite map_app. apply Forall_app. split.
  - eapply Forall_impl; [|apply flatten_paths_shape].
    intros path (s & -> & D). exists m, s. simpl. auto.
  - eapply Forall_impl; [|apply IH].
    intros path (item & s & Hin & -> & D). exists item, s. simpl. auto.
Qed.

Lemma flatten_paths_NoDup o :
  well_named o = true ->
  forall basePath, NoDup (map fst (flatten o basePath)).
Proof.
  induction o as [rendered | elements IH | members IH]
    using EdsObject_nested_ind; intros Hwn basePath.
  - repeat constructor. simpl. tauto.
  - rewrite flatten_Array. cbn [well_named] in Hwn. generalize 0 as i.
    induction IH as [|e rest He _ IHrest]; intros i; [constructor|].
    cbn [forallb] in Hwn. apply andb_true_iff in Hwn as [Hwe Hwrest].
    cbn [flatten_elements]. rewrite map_app. apply NoDup_app.
    + now apply He.
    + now apply IHrest.
    + intros path Hin1 Hin2.
      pose proof (flatten_paths_shape e (element_name basePath i)) as S1.
      rewrite Forall_forall in S1. destruct (S1 _ Hin1) as (s1 & E1 & _).
      pose proof (flatten_elements_paths basePath rest (S i)) as S2.
      rewrite Forall_forall in S2.
      destruct (S2 _ Hin2) as (k & s2 & Hk & E2).
      rewrite E1 in E2. apply element_name_apart in E2. lia.
  - rewrite flatten_Container. cbn [well_named] in Hwn.
    apply andb_true_iff in Hwn as [Hwn Hchildren].
    apply andb_true_iff in Hwn as [Hplain Hdistinct].
    induction IH as [|m rest Hm _ IHrest]; [constructor|].
    cbn [forallb map distinct] in *.
    apply andb_true_iff in Hchildren as [Hwm Hwrest].
    apply andb_true_iff in Hplain as [Hpm Hprest].
    apply andb_true_iff in Hdistinct as [Hfresh Hdrest].
    cbn [flatten_members]. rewrite map_app. apply NoDup_app.
    + now apply Hm.
    + now apply IHrest.
    + intros path Hin1 Hin2.
      pose proof (flatten_paths_shape (snd m)
                    (member_name basePath (fst m))) as S1.
      rewrite Forall_forall in S1. destruct (S1 _ Hin1) as (s1 & E1 & D1).
      pose proof (flatten_members_paths basePath rest) as S2.
      rewrite Forall_forall in S2.
      destruct (S2 _ Hin2) as (item & s2 & Hitem & E2 & D2).
      rewrite E1 in E2.
      assert (Hpi : plain_name (fst item) = true).
      { rewrite forallb_forall in Hprest. now apply Hprest. }
      apply member_name_apart in E2; try assumption.
      apply negb_true_iff in Hfresh.
      assert (Hex : existsb (String.eqb (fst m)) (map fst rest) = true).
      { apply existsb_exists. exists (fst item). split.
        - now apply in_map.
        - rewrite E2. apply String.eqb_refl. }
      rewrite Hex in Hfresh. discriminate.
Qed.

(** X12. For a well-named object, the paths of the leaves, which make the
    header that ['labels'] mode returns, are pairwise distinct: no two
    columns of the CSV file bear the same name. *)
Theorem tlm_display_string_distinct_labels base_object base_name w :
  well_named base_object = true ->
  let paths := map fst (flatten base_object base_name) in
  tlm_display_string "labels" base_object base_name "" w
  = (inr (join (map (fun path => path ++ ", ") paths)), w)
  /\ NoDup paths.
Proof.
  intros Hwn paths. subst paths. split.
  - rewrite tlm_display_string_refines_flatten by reflexivity.
    now rewrite render_leaf_labels.
  - now apply flatten_paths_NoDup.
Qed.

Lemma tlm_display_string_distinct_labels_witness :
  tlm_display_string "labels"
    (Container [("a", Array [Scalar "1"; Scalar "2"]); ("a1", Scalar "3")])
    "T" "" initial_world
  = (inr "T.a[0], T.a[1], T.a1, ", initial_world)
  /\ NoDup ["T.a[0]"; "T.a[1]"; "T.a1"].
Proof.
  apply (tlm_display_string_distinct_labels
           (Container [("a", Array [Scalar "1"; Scalar "2"]); ("a1", Scalar "3")])
           "T" initial_world).
  reflexivity.
Defined.

(** ** main *)

Local Open Scope list_scope.

Section StreamFacts.

Variable decode_message : bytes -> exn + (string * EdsObject).

(** The loop over a sequence of packets followed by another is the loop
    over the first, then, unless it was left, the loop over the second. *)
Lemma stream_packets_app screen_flag first second :
  forall labels_printed w,
    stream_packets decode_message screen_flag (first ++ second)
      labels_printed w
    = match stream_packets decode_message screen_flag first labels_printed w
      with
      | (inl a, w') => (inl a, w')
      | (inr printed, w') =>
          stream_packets decode_message screen_flag second printed w'
      end.
Proof.
  induction first as [|packet first IH]; intros labels_printed w;
    [reflexivity|].
  cbn [app stream_packets]. unfold bind.
  destruct (process_packet decode_message screen_flag packet labels_printed w)
    as [[a | printed] w']; [reflexivity | apply IH].
Qed.

(** What the loop does to the files does not depend on [screen_flag], nor
    on what the console holds. *)
Lemma stream_packets_files packets :
  forall labels_printed w1 w2,
    fin_handle w1 = fin_handle w2 ->
    fout_handle w1 = fout_handle w2 ->
    fout_written w1 = fout_written w2 ->
    let run1 := stream_packets decode_message true packets labels_printed w1 in
    let run2 := stream_packets decode_message false packets labels_printed w2 in
    fst run1 = fst run2
    /\ fin_handle (snd run1) = fin_handle (snd run2)
    /\ fout_handle (snd run1) = fout_handle (snd run2)
    /\ fout_written (snd run1) = fout_written (snd run2).
Proof.
  induction packets as [|packet rest IH]; intros labels_printed w1 w2 H1 H2 H3;
    cbv zeta.
  - simpl. auto.
  - cbn [stream_packets]. unfold bind. rewrite !process_packet_run.
    destruct (decode_message packet) as [e | decoded].
    + simpl. auto.
    + apply IH; cbn [fin_handle fout_handle fout_written]; congruence.
Qed.

(** Without [-s] the loop prints nothing. *)
Lemma stream_packets_quiet packets :
  forall labels_printed w,
    stdout (snd (stream_packets decode_message false packets labels_printed w))
    = stdout w.
Proof.
  induction packets as [|packet rest IH]; intros labels_printed w;
    [reflexivity|].
  cbn [stream_packets]. unfold bind. rewrite process_packet_run.
  destruct (decode_message packet) as [e | decoded]; [reflexivity|].
  rewrite IH. cbn [stdout]. apply app_nil_r.
Qed.

(** With [-s] the loop prints, for each packet, its bytes and its fields. *)
Lemma stream_packets_screen packets :
  forall decoded labels_printed w,
    map decode_message packets = map inr decoded ->
    stdout (snd (stream_packets decode_message true packets labels_printed w))
    = stdout w
      ++ flat_map (fun pd => [hex_dump 16 (fst pd); screen_text (snd pd)])
                  (combine packets decoded).
Proof.
  induction packets as [|packet rest IH];
    intros [|d ds] labels_printed w Hdec; try discriminate.
  - simpl. now rewrite app_nil_r.
  - cbn [stream_packets]. unfold bind. rewrite process_packet_run.
    cbn [map] in Hdec. injection Hdec as Hd Hrest. rewrite Hd.
    rewrite (IH ds) by assumption.
    cbn [stdout combine flat_map fst snd]. now rewrite <- app_assoc.
Qed.

(** The loop over packets that decode, followed by one that does not. *)
Lemma stream_packets_rejected screen_flag good bad rest decoded e :
  map decode_message good = map inr decoded ->
  decode_message bad = inl e ->
  forall labels_printed w,
    let run := stream_packets decode_message screen_flag
                 (good ++ bad :: rest) labels_printed w in
    fst run = inl (Raised e)
    /\ fout_written (snd run)
       = fout_written w
         ++ match decoded with
            | [] => []
            | first :: _ =>
                if labels_printed then [] else [labels_line first]
            end
         ++ map values_line decoded.
Proof.
  intros Hgood Hbad labels_printed w. cbv zeta.
  rewrite stream_packets_app.
  pose proof (stream_packets_decoded decode_message screen_flag good decoded
                labels_printed w Hgood) as Hrun.
  cbv zeta in Hrun. destruct Hrun as [Hres Hout].
  destruct (stream_packets decode_message screen_flag good labels_printed w)
    as [[a | printed] w']; cbn [fst snd] in *; [discriminate|].
  cbn [stream_packets]. unfold bind. rewrite process_packet_run, Hbad.
  cbn [fst snd]. auto.
Qed.

End StreamFacts.

(** X13. The [-s] flag changes nothing to the files: with and without it,
    [main] ends the same way, leaves the two handles in the same state and
    has written the same text to the CSV file. *)
Theorem main_screen_flag_files init_databases open_source open_destination
    decode_message w :
  let shown := main init_databases open_source open_destination
                    decode_message true w in
  let quiet := main init_databases open_source open_destination
                    decode_message false w in
  fst shown = fst quiet
  /\ fin_handle (snd shown) = fin_handle (snd quiet)
  /\ fout_handle (snd shown) = fout_handle (snd quiet)
  /\ fout_written (snd shown) = fout_written (snd quiet).
Proof.
  destruct init_databases as [e1 | []];
    [destruct e1; cbv zeta; auto |].
  destruct open_source as [e2 | data];
    [destruct e2; cbv zeta; auto |].
  destruct open_destination as [e3 | []];
    [cbv zeta; auto |].
  cbv zeta.
  rewrite !(main_streaming _ _ _ decode_message _ data w
              eq_refl eq_refl eq_refl).
  cbv zeta.
  pose proof (stream_packets_files decode_message
                (read_packet (mk_file data (length (firstn 4 data)))
                   (N.to_nat (from_bytes_big (firstn 4 data))))
                false
                (mk_world Opened Opened (fout_written w) (stdout w))
                (mk_world Opened Opened (fout_written w) (stdout w))
                eq_refl eq_refl eq_refl) as H.
  cbv zeta in H. destruct H as (Hr & Hin & Hout & Hw).
  destruct (stream_packets decode_message true _ _ _) as [r1 w1].
  destruct (stream_packets decode_message false _ _ _) as [r2 w2].
  cbn [fst snd] in *. subst r2.
  destruct r1 as [a | b]; cbn [fst snd fin_handle fout_handle fout_written];
    auto.
Qed.

(** X14. Without [-s], [main] prints only the message of a [RuntimeError]
    that it catches: when neither the databases nor the opening of the
    source raise [RuntimeError], the console is left as it was, however the
    run ends. *)
Theorem main_quiet init_databases open_source open_destination
    decode_message w :
  init_databases <> inl RuntimeError ->
  open_source <> inl RuntimeError ->
  stdout (snd (main init_databases open_source open_destination
                 decode_message false w))
  = stdout w.
Proof.
  intros H1 H2.
  destruct init_databases as [e1 | []];
    [destruct e1; try reflexivity; now elim H1 |].
  destruct open_source as [e2 | data];
    [destruct e2; try reflexivity; now elim H2 |].
  destruct open_destination as [e3 | []]; [reflexivity|].
  rewrite (main_streaming _ _ _ decode_message false data w
             eq_refl eq_refl eq_refl).
  cbv zeta.
  pose proof (stream_packets_quiet decode_message
                (read_packet (mk_file data (length (firstn 4 data)))
                   (N.to_nat (from_bytes_big (firstn 4 data))))
                false
                (mk_world Opened Opened (fout_written w) (stdout w))) as H.
  destruct (stream_packets _ _ _ _ _) as [[a | b] w']; exact H.
Qed.

Lemma main_quiet_witness :
  stdout (snd (main (inr tt) (inr truncated_source) (inr tt) decode_pair
                 false initial_world))
  = [].
Proof.
  apply (main_quiet (inr tt) (inr truncated_source) (inr tt) decode_pair
           initial_world); discriminate.
Defined.

(** The run of [main] over a source whose packets decode up to one that
    the decoder rejects. *)
Lemma main_stops_at_rejected (data : bytes) decode_message screen_flag
    good bad rest decoded e w :
  read_packet (mk_file data (length (firstn 4 data)))
              (N.to_nat (from_bytes_big (firstn 4 data)))
  = good ++ bad :: rest ->
  map decode_message good = map inr decoded ->
  decode_message bad = inl e ->
  let run := main (inr tt) (inr data) (inr tt) decode_message screen_flag w in
  fst run = inl (Raised e)
  /\ fout_written (snd run)
     = fout_written w
       ++ match decoded with
          | [] => []
          | first :: _ => labels_line first :: map values_line decoded
          end
  /\ fin_handle (snd run) = Opened
  /\ fout_handle (snd run) = Opened.
Proof.
  intros Hpackets Hgood Hbad. cbv zeta.
  rewrite (main_streaming _ _ _ decode_message screen_flag data w
             eq_refl eq_refl eq_refl).
  cbv zeta. rewrite Hpackets.
  pose proof (stream_packets_rejected decode_message screen_flag good bad rest
                decoded e Hgood Hbad false
                (mk_world Opened Opened (fout_written w) (stdout w))) as H.
  pose proof (stream_packets_handles decode_message screen_flag
                (good ++ bad :: rest) false
                (mk_world Opened Opened (fout_written w) (stdout w))) as Hh.
  cbv zeta in H, Hh. destruct H as [Hres Hout]. destruct Hh as (Hin & Hfo & _).
  destruct (stream_packets _ _ _ _ _) as [r w']. cbn [fst snd] in *.
  subst r. cbn [fst snd fout_written fin_handle fout_handle] in *.
  repeat split; try assumption.
  rewrite Hout. destruct decoded; reflexivity.
Qed.

(** X15. When the decoder raises on a packet, the run ends with that
    exception; the CSV file keeps what was written for the packets before
    it (the header and their value lines, or nothing when it is the first
    packet), and both files are left open. *)
Theorem main_decode_failure (data : bytes) decode_message screen_flag
    good bad rest decoded e w :
  read_packet (mk_file data (length (firstn 4 data)))
              (N.to_nat (from_bytes_big (firstn 4 data)))
  = good ++ bad :: rest ->
  map decode_message good = map inr decoded ->
  decode_message bad = inl e ->
  let run := main (inr tt) (inr data) (inr tt) decode_message screen_flag w in
  fst run = inl (Raised e)
  /\ fout_written (snd run)
     = fout_written w
       ++ match decoded with
          | [] => []
          | first :: _ => labels_line first :: map values_line decoded
          end
  /\ fin_handle (snd run) = Opened
  /\ fout_handle (snd run) = Opened.
Proof. apply main_stops_at_rejected. Qed.

Lemma main_decode_failure_witness :
  let run := main (inr tt) (inr cut_short_source) (inr tt) decode_pair true
                  initial_world in
  fst run = inl (Raised DecodeError)
  /\ fout_written (snd run)
     = [("TypeName.a, TypeName.b, " ++ newline)%string;
        ("1, 2, " ++ newline)%string]
  /\ fin_handle (snd run) = Opened
  /\ fout_handle (snd run) = Opened.
Proof.
  apply (main_decode_failure cut_short_source decode_pair true
           [[x00; x00; x00; x01; x00; x00; x00; x02]] [x09; x0a; x0b] []
           [("TypeName"%string,
             Container [("a"%string, Scalar "1");
                        ("b"%string, Scalar "2")])]
           DecodeError initial_world); reflexivity.
Defined.

(** X16. Of the exceptions raised while the run starts, only a
    [RuntimeError] from the databases or from the opening of the source is
    caught: any other one leaves [main] as it is, with nothing printed and
    no file opened; and an exception raised by the opening of the
    destination, [RuntimeError] included, leaves [main] with the source
    open. *)
Theorem main_uncaught_exceptions e e' open_source open_destination
    (data : bytes) decode_message screen_flag w :
  e <> RuntimeError ->
  main (inl e) open_source open_destination decode_message screen_flag w
  = (inl (Raised e), w)
  /\ main (inr tt) (inl e) open_destination decode_message screen_flag w
     = (inl (Raised e), w)
  /\ main (inr tt) (inr data) (inl e') decode_message screen_flag w
     = (inl (Raised e'),
        mk_world Opened (fout_handle w) (fout_written w) (stdout w)).
Proof.
  intros He. repeat split; try (destruct e; try reflexivity; now elim He).
Qed.

Lemma main_uncaught_exceptions_witness :
  main (inl OSError) (inr []) (inr tt) decode_pair false initial_world
  = (inl (Raised OSError), initial_world)
  /\ main (inr tt) (inl OSError) (inr tt) decode_pair false initial_world
     = (inl (Raised OSError), initial_world)
  /\ main (inr tt) (inr two_packet_source) (inl RuntimeError) decode_pair
          false initial_world
     = (inl (Raised RuntimeError), mk_world Opened Unopened [] []).
Proof.
  apply (main_uncaught_exceptions OSError RuntimeError (inr []) (inr tt)
           two_packet_source decode_pair false initial_world).
  discriminate.
Defined.

(** X17. A source of at most four bytes, that is a length header alone,
    whole or cut short, gives an empty CSV file: no packet is decoded,
    nothing is written or printed, both files are closed and the run ends
    normally, whatever the header says. *)
Theorem main_header_only (data : bytes) decode_message screen_flag w :
  length data <= 4 ->
  main (inr tt) (inr data) (inr tt) decode_message screen_flag w
  = (inr tt, mk_world Closed Closed (fout_written w) (stdout w)).
Proof.
  intros Hlen.
  rewrite (main_streaming _ _ _ decode_message screen_flag data w
             eq_refl eq_refl eq_refl).
  cbv zeta. rewrite read_packet_at_eof; [reflexivity|].
  unfold remaining. cbn [pos content].
  rewrite firstn_all2 by assumption. apply skipn_all.
Qed.

Lemma main_header_only_witness :
  main (inr tt) (inr [x00; x00; x01]) (inr tt) decode_pair true initial_world
  = (inr tt, mk_world Closed Closed [] []).
Proof.
  apply (main_header_only [x00; x00; x01] decode_pair true initial_world).
  simpl. lia.
Defined.

Lemma from_bytes_big_bound_from (data : bytes) :
  forall acc,
    (fold_left (fun acc b => acc * 256 + Byte.to_N b) data acc
     < (acc + 1) * 256 ^ N.of_nat (length data))%N.
Proof.
  induction data as [|b rest IH]; intros acc.
  - simpl. lia.
  - cbn [fold_left length]. rewrite Nat2N.inj_succ, N.pow_succ_r'.
    specialize (IH (acc * 256 + Byte.to_N b)%N).
    pose proof (Byte.to_N_bounded b).
    eapply N.lt_le_trans; [exact IH|].
    rewrite N.mul_assoc.
    apply N.mul_le_mono_r. lia.
Qed.

(** X18. The packet length that [main] reads is below 2^32: it is the
    big-endian value of at most four bytes, the four bytes of the header
    when the source holds that many. *)
Theorem main_packet_length_bound (data : bytes) b0 b1 b2 b3 (rest : bytes) :
  (from_bytes_big (firstn 4 data) < 2 ^ 32)%N
  /\ from_bytes_big (firstn 4 (b0 :: b1 :: b2 :: b3 :: rest))
     = (Byte.to_N b0 * 2 ^ 24 + Byte.to_N b1 * 2 ^ 16
        + Byte.to_N b2 * 2 ^ 8 + Byte.to_N b3)%N.
Proof.
  split; [|apply from_bytes_big_4].
  unfold from_bytes_big.
  eapply N.lt_le_trans; [apply from_bytes_big_bound_from|].
  rewrite N.add_0_l, N.mul_1_l.
  change (2 ^ 32)%N with (256 ^ 4)%N.
  apply N.pow_le_mono_r; [lia|].
  pose proof (firstn_le_length 4 data). lia.
Qed.

(** X19. With [-s], a run over packets that all decode prints two texts
    for each packet, in input order: the dump of its bytes, sixteen to a
    line, and the ['screen'] text of its fields. *)
Theorem main_screen_output (data : bytes) decode_message packets decoded w :
  read_packet (mk_file data (length (firstn 4 data)))
              (N.to_nat (from_bytes_big (firstn 4 data)))
  = packets ->
  map decode_message packets = map inr decoded ->
  let run := main (inr tt) (inr data) (inr tt) decode_message true w in
  fst run = inr tt
  /\ stdout (snd run)
     = stdout w
       ++ flat_map (fun pd => [hex_dump 16 (fst pd); screen_text (snd pd)])
                   (combine packets decoded).
Proof.
  intros Hpackets Hdec. cbv zeta.
  rewrite (main_streaming _ _ _ decode_message true data w
             eq_refl eq_refl eq_refl).
  cbv zeta. rewrite Hpackets.
  pose proof (stream_packets_decoded decode_message true packets decoded false
                (mk_world Opened Opened (fout_written w) (stdout w)) Hdec)
    as Hrun.
  pose proof (stream_packets_screen decode_message packets decoded false
                (mk_world Opened Opened (fout_written w) (stdout w)) Hdec)
    as Hscreen.
  cbv zeta in Hrun. destruct Hrun as [Hres _].
  destruct (stream_packets _ _ _ _ _) as [r w']. cbn [fst snd] in *.
  subst r. cbn [fst snd stdout] in *. auto.
Qed.

Lemma main_screen_output_witness :
  let run := main (inr tt) (inr two_packet_source) (inr tt) decode_pair true
                  initial_world in
  fst run = inr tt
  /\ stdout (snd run)
     = [("0x00 0x00 0x00 0x01 0x00 0x00 0x00 0x02 ")%string;
        ("TypeName.a" ++ spaces 50 ++ " = 1" ++ newline
         ++ "TypeName.b" ++ spaces 50 ++ " = 2" ++ newline)%string;
        ("0x00 0x00 0x00 0x03 0x00 0x00 0x00 0x04 ")%string;
        ("TypeName.a" ++ spaces 50 ++ " = 3" ++ newline
         ++ "TypeName.b" ++ spaces 50 ++ " = 4" ++ newline)%string].
Proof.
  apply (main_screen_output two_packet_source decode_pair
           [[x00; x00; x00; x01; x00; x00; x00; x02];
            [x00; x00; x00; x03; x00; x00; x00; x04]]
           [("TypeName"%string,
             Container [("a"%string, Scalar "1"); ("b"%string, Scalar "2")]);
            ("TypeName"%string,
             Container [("a"%string, Scalar "3"); ("b"%string, Scalar "4")])]
           initial_world); reflexivity.
Defined.

(** A run of the body of [main] to which the source delivers whole
    packets that decode, then a fragment that the decoder rejects. *)
Lemma main_stops_at_fragment (header : bytes) (whole : list bytes)
    (fragment : bytes) decoded decode_message screen_flag e w :
  length header = 4 ->
  Forall (fun packet => length packet = N.to_nat (from_bytes_big header))
         whole ->
  0 < length fragment < N.to_nat (from_bytes_big header) ->
  map decode_message whole = map inr decoded ->
  decode_message fragment = inl e ->
  let run := main (inr tt) (inr (header ++ concat whole ++ fragment))
                  (inr tt) decode_message screen_flag w in
  fst run = inl (Raised e)
  /\ fout_written (snd run)
     = fout_written w
       ++ match decoded with
          | [] => []
          | first :: _ => labels_line first :: map values_line decoded
          end
  /\ fin_handle (snd run) = Opened
  /\ fout_handle (snd run) = Opened.
Proof.
  intros Hheader Hwhole Hfrag Hdec Hrej.
  set (n := N.to_nat (from_bytes_big header)) in *.
  assert (Hfirst : firstn 4 (header ++ concat whole ++ fragment) = header).
  { rewrite firstn_app, Hheader, Nat.sub_diag, firstn_O, app_nil_r.
    rewrite <- Hheader. apply firstn_all. }
  apply (main_stops_at_rejected _ decode_message screen_flag whole fragment
           [] decoded e w); try assumption.
  rewrite Hfirst, Hheader. fold n.
  assert (Hrem : remaining (mk_file (header ++ concat whole ++ fragment) 4)
                 = concat whole ++ fragment).
  { unfold remaining. cbn [pos content].
    rewrite skipn_app, Hheader, Nat.sub_diag, skipn_O.
    rewrite <- Hheader, skipn_all. reflexivity. }
  assert (Hlen : length (concat whole) = length whole * n).
  { clear - Hwhole. induction Hwhole as [|p rest Hp _ IH]; [reflexivity|].
    cbn [concat length]. rewrite length_app, Hp, IH. simpl. lia. }
  rewrite (read_packet_boundary _ n (length whole) (concat whole) fragment)
    by (assumption || lia).
  rewrite (read_packet_whole_packets n whole) by (reflexivity || assumption || lia).
  f_equal.
  rewrite read_packet_cons; cbn [remaining pos content skipn];
    [| lia | destruct fragment; [simpl in Hfrag; lia | discriminate]].
  rewrite firstn_all2 by lia.
  rewrite read_packet_at_eof; [reflexivity|].
  unfold remaining. cbn [pos content skipn]. apply skipn_all2. lia.
Qed.

(** ** The command line of main *)

Local Open Scope string_scope.

Lemma options_loop_help opts :
  existsb (fun o => fst o =? "-h") opts = true ->
  forall filename screen_flag w,
    options_loop opts filename screen_flag w
    = (inl (SysExit 0),
       mk_world (fin_handle w) (fout_handle w) (fout_written w)
                (stdout w ++ usage)%list).
Proof.
  induction opts as [|[opt arg] rest IH]; intros H filename screen_flag w;
    [discriminate|].
  cbn [existsb fst] in H. cbn [options_loop].
  destruct (opt =? "-h") eqn:Eh.
  - unfold bind, print, sys_exit, usage.
    cbn [fin_handle fout_handle fout_written stdout].
    now rewrite <- !app_assoc.
  - cbn [orb] in H.
    destruct (contains opt "--file"); [now apply IH|].
    destruct (opt =? "-s"); now apply IH.
Qed.

(** X21. When [-h] is among the options, [main] prints the four lines of
    the usage and ends with status 0, whatever the other options, before
    the databases are initialised and before any file is opened. *)
Theorem main_argv_help opts init_databases open_rb open_w decode_message w :
  existsb (fun o => fst o =? "-h") opts = true ->
  main_argv (Some opts) init_databases open_rb open_w decode_message w
  = (inl (Aborted (SysExit 0)),
     mk_world (fin_handle w) (fout_handle w) (fout_written w)
              (stdout w ++ usage)%list).
Proof.
  intros H. unfold main_argv. now rewrite options_loop_help.
Qed.

Lemma main_argv_help_witness :
  main_argv (Some [("--file", "tlm.bin"); ("-h", ""); ("-s", "")])
    (inl RuntimeError) (fun _ => inl OSError) (fun _ => inl OSError)
    decode_pair initial_world
  = (inl (Aborted (SysExit 0)), mk_world Unopened Unopened [] usage).
Proof.
  apply (main_argv_help [("--file", "tlm.bin"); ("-h", ""); ("-s", "")]
           (inl RuntimeError) (fun _ => inl OSError) (fun _ => inl OSError)
           decode_pair initial_world).
  reflexivity.
Defined.

Lemma options_loop_unbound opts :
  forallb (fun o => negb (fst o =? "-h") && negb (contains (fst o) "--file"))
          opts = true ->
  forall filename screen_flag w,
    options_loop opts filename screen_flag w
    = (inr (filename, screen_flag || wants_screen opts), w).
Proof.
  induction opts as [|[opt arg] rest IH]; intros H filename screen_flag w.
  - simpl. now rewrite orb_false_r.
  - cbn [forallb fst] in H. apply andb_true_iff in H as [Ho Hrest].
    apply andb_true_iff in Ho as [Hh Hf]. apply negb_true_iff in Hh, Hf.
    cbn [options_loop]. rewrite Hh, Hf.
    unfold wants_screen. cbn [existsb fst]. fold (wants_screen rest).
    destruct (opt =? "-s"); rewrite IH by assumption.
    + now rewrite orb_true_r.
    + reflexivity.
Qed.

(** X22. When no option names the file (and none is [-h]), [filename] is
    never bound: with working databases the run ends with the
    [UnboundLocalError] of [open(filename, 'rb')], nothing printed and no
    file opened. *)
Theorem main_argv_no_file opts open_rb open_w decode_message w :
  forallb (fun o => negb (fst o =? "-h") && negb (contains (fst o) "--file"))
          opts = true ->
  main_argv (Some opts) (inr tt) open_rb open_w decode_message w
  = (inl UnboundFilename, w).
Proof.
  intros H. unfold main_argv. now rewrite options_loop_unbound.
Qed.

Lemma main_argv_no_file_witness :
  main_argv (Some [("-s", "")]) (inr tt)
    (fun _ => inr two_packet_source) (fun _ => inr tt) decode_pair
    initial_world
  = (inl UnboundFilename, initial_world).
Proof.
  apply (main_argv_no_file [("-s", "")] (fun _ => inr two_packet_source)
           (fun _ => inr tt) decode_pair initial_world).
  reflexivity.
Defined.

Lemma options_loop_run opts :
  forallb (fun o => (fst o =? "-s") || (fst o =? "--file")) opts = true ->
  forall filename screen_flag w,
    options_loop opts filename screen_flag w
    = (inr (match last_file opts with
            | Some given => Some given
            | None => filename
            end,
            screen_flag || wants_screen opts), w).
Proof.
  induction opts as [|[opt arg] rest IH]; intros H filename screen_flag w.
  - simpl. now rewrite orb_false_r.
  - cbn [forallb fst] in H. apply andb_true_iff in H as [Ho Hrest].
    cbn [options_loop last_file].
    unfold wants_screen. cbn [existsb fst]. fold (wants_screen rest).
    apply orb_true_iff in Ho as [Ho | Ho]; apply String.eqb_eq in Ho;
      subst opt; cbn -[last_file wants_screen options_loop];
      rewrite IH by assumption.
    + rewrite orb_true_r. now destruct (last_file rest).
    + now destruct (last_file rest).
Qed.

(** X23. With options that are [-s] or [--file] only, the file converted
    is the one named by the last [--file], the CSV file is that name with
    [.bin] replaced by [.csv], and the console output is on exactly when
    there is a [-s]: the run is [main] on those. *)
Theorem main_argv_run opts filename init_databases open_rb open_w
    decode_message w :
  forallb (fun o => (fst o =? "-s") || (fst o =? "--file")) opts = true ->
  last_file opts = Some filename ->
  main_argv (Some opts) init_databases open_rb open_w decode_message w
  = outcome_of
      (main init_databases (open_rb filename) (open_w (csv_filename filename))
            decode_message (wants_screen opts) w).
Proof.
  intros Hopts Hfile. unfold main_argv.
  rewrite options_loop_run by assumption. rewrite Hfile. reflexivity.
Qed.

Lemma main_argv_run_witness :
  main_argv (Some [("--file", "old.bin"); ("-s", ""); ("--file", "tlm.bin")])
    (inr tt)
    (fun name => if name =? "tlm.bin" then inr [x00; x00; x00; x08]
                 else inl OSError)
    (fun name => if name =? "tlm.csv" then inr tt else inl OSError)
    decode_pair initial_world
  = (inr tt, mk_world Closed Closed [] []).
Proof.
  apply (main_argv_run
           [("--file", "old.bin"); ("-s", ""); ("--file", "tlm.bin")]
           "tlm.bin" (inr tt)
           (fun name => if name =? "tlm.bin" then inr [x00; x00; x00; x08]
                        else inl OSError)
           (fun name => if name =? "tlm.csv" then inr tt else inl OSError)
           decode_pair initial_world); reflexivity.
Defined.

(** ** The name of the CSV file *)

Lemma prefix_empty s : String.prefix "" s = true.
Proof. destruct s; reflexivity. Qed.

Lemma prefix_bin_inv s :
  String.prefix ".bin" s = true -> exists t, s = ".bin" ++ t.
Proof.
  destruct s as [|c0 [|c1 [|c2 [|c3 t]]]]; cbn [String.prefix];
    repeat match goal with
           | |- context [ascii_dec ?a ?b] => destruct (ascii_dec a b)
           end; try discriminate.
  intros _. subst. now exists t.
Qed.

Lemma csv_filename_match t :
  csv_filename (".bin" ++ t) = ".csv" ++ csv_filename t.
Proof. destruct t; reflexivity. Qed.

Lemma contains_bin_match t : contains ".bin" (".bin" ++ t) = true.
Proof. destruct t; reflexivity. Qed.

Lemma csv_filename_no_match c rest :
  String.prefix ".bin" (String c rest) = false ->
  csv_filename (String c rest) = String c (csv_filename rest).
Proof.
  intros H. unfold csv_filename, replace. cbn [replace_from].
  now rewrite H.
Qed.

(** Induction on a name along the occurrences of [.bin] that
    [csv_filename] meets. *)
Lemma csv_filename_ind (P : string -> Prop) :
  P "" ->
  (forall t, P t -> P (".bin" ++ t)) ->
  (forall c rest,
      String.prefix ".bin" (String c rest) = false ->
      P rest -> P (String c rest)) ->
  forall s, P s.
Proof.
  intros Hnil Hmatch Hcopy s.
  remember (String.length s) as n eqn:Hn. revert s Hn.
  induction n as [n IH] using lt_wf_ind. intros [|c rest] Hn; [exact Hnil|].
  destruct (String.prefix ".bin" (String c rest)) eqn:E.
  - destruct (prefix_bin_inv _ E) as [t Ht]. rewrite Ht.
    apply Hmatch. apply (IH (String.length t)); [|reflexivity].
    subst n. rewrite Ht. simpl. lia.
  - apply Hcopy; [assumption|].
    apply (IH (String.length rest)); [|reflexivity]. subst n. simpl. lia.
Qed.

(** X24. The name of the CSV file is as long as the name of the source. *)
Theorem csv_filename_length filename :
  String.length (csv_filename filename) = String.length filename.
Proof.
  induction filename as [|t IH|c rest E IH] using csv_filename_ind.
  - reflexivity.
  - rewrite csv_filename_match. simpl. now rewrite IH.
  - rewrite csv_filename_no_match by assumption. simpl. now rewrite IH.
Qed.

Lemma csv_filename_fixed_iff filename :
  csv_filename filename = filename <-> contains ".bin" filename = false.
Proof.
  induction filename as [|t IH|c rest E IH] using csv_filename_ind.
  - split; reflexivity.
  - rewrite csv_filename_match, contains_bin_match. cbn [append].
    split; discriminate.
  - rewrite csv_filename_no_match by assumption.
    cbn [contains]. rewrite E. rewrite <- IH. split.
    + intros H. now injection H.
    + intros H. now rewrite H.
Qed.

(** X25. The CSV file has the very name of the source, so that opening
    it for writing opens the source itself, exactly when [.bin] does not
    occur in that name. *)
Theorem csv_filename_same_iff filename :
  csv_filename filename = filename <-> contains ".bin" filename = false.
Proof. apply csv_filename_fixed_iff. Qed.

Lemma prefix_bin_stem c stem rest :
  String.prefix ".bin" (String c (stem ++ ".bi")) = false ->
  String.prefix ".bin" (String c (stem ++ ".bin" ++ rest)) = false.
Proof.
  destruct stem as [|c1 [|c2 [|c3 stem]]]; cbn [String.prefix append];
    repeat match goal with
           | |- context [ascii_dec ?a ?b] => destruct (ascii_dec a b)
           end; try reflexivity; try discriminate; auto.
  rewrite prefix_empty. discriminate.
Qed.

(** X26. The first [.bin] of the name is replaced by [.csv], what comes
    before it is kept, and what comes after it is converted in its
    turn. *)
Theorem csv_filename_first_bin stem rest :
  contains ".bin" (stem ++ ".bi") = false ->
  csv_filename (stem ++ ".bin" ++ rest) = stem ++ ".csv" ++ csv_filename rest.
Proof.
  induction stem as [|c stem IH]; intros H.
  - apply csv_filename_match.
  - change (String c stem ++ ".bi") with (String c (stem ++ ".bi")) in H.
    cbn [contains] in H.
    destruct (String.prefix ".bin" (String c (stem ++ ".bi"))) eqn:E;
      [discriminate|].
    change (String c stem ++ ".bin" ++ rest)
      with (String c (stem ++ ".bin" ++ rest)).
    rewrite csv_filename_no_match by now apply prefix_bin_stem.
    rewrite IH by assumption. reflexivity.
Qed.

Lemma csv_filename_first_bin_witness :
  csv_filename "./run.1/tlm.bin" = "./run.1/tlm.csv".
Proof.
  apply (csv_filename_first_bin "./run.1/tlm" ""). reflexivity.
Defined.

(** ** Runs over named files *)

Local Open Scope list_scope.

(** The run of [main] on options that are [-s] or [--file] only, with
    working databases and a source and a destination that open. *)
Lemma main_argv_opened opts filename (data : bytes) open_rb open_w
    decode_message w :
  forallb (fun o => (fst o =? "-s")%string || (fst o =? "--file")%string)
          opts = true ->
  last_file opts = Some filename ->
  open_rb filename = inr data ->
  open_w (csv_filename filename) = inr tt ->
  main_argv (Some opts) (inr tt) open_rb open_w decode_message w
  = outcome_of
      (main (inr tt) (inr data) (inr tt) decode_message (wants_screen opts) w).
Proof.
  intros Hopts Hfile Hsrc Hdst. unfold main_argv.
  rewrite options_loop_run by assumption. rewrite Hfile, Hsrc, Hdst.
  reflexivity.
Qed.

Lemma contains_bin_other_name filename :
  contains ".bin" filename = true -> csv_filename filename <> filename.
Proof.
  intros H Hsame. apply csv_filename_fixed_iff in Hsame.
  rewrite Hsame in H. discriminate.
Qed.

(** C3 (as amended). For a source file whose name holds [.bin], so that
    the CSV file is another file, made of a 4-byte header giving a
    positive packet length and of N packets of that length which all
    decode, [main] ends normally and what it has written to the CSV file
    is: nothing when N = 0; and when N >= 1 the header line of the first
    record followed by the value line of each packet in input order, N+1
    writes in all, each ended by a line break; these are N+1 lines of
    text when no type name, member name or rendered value holds a line
    break. *)
Theorem main_writes_header_then_rows opts filename (header : bytes)
    (packets : list bytes) decoded open_rb open_w decode_message :
  forallb (fun o => (fst o =? "-s")%string || (fst o =? "--file")%string)
          opts = true ->
  last_file opts = Some filename ->
  contains ".bin" filename = true ->
  open_rb filename = inr (header ++ concat packets) ->
  open_w (csv_filename filename) = inr tt ->
  length header = 4 ->
  (0 < from_bytes_big header)%N ->
  Forall (fun packet => length packet = N.to_nat (from_bytes_big header))
         packets ->
  map decode_message packets = map inr decoded ->
  let run := main_argv (Some opts) (inr tt) open_rb open_w decode_message
                       initial_world in
  csv_filename filename <> filename
  /\ fst run = inr tt
  /\ fout_written (snd run)
     = match decoded with
       | [] => []
       | first :: _ => labels_line first :: map values_line decoded
       end
  /\ length (fout_written (snd run))
     = match packets with
       | [] => 0
       | _ :: _ => length packets + 1
       end
  /\ (forallb single_line_record decoded = true ->
      count_newlines (join (fout_written (snd run)))
      = match packets with
        | [] => 0
        | _ :: _ => length packets + 1
        end).
Proof.
  intros Hopts Hfile Hbin Hsrc Hdst Hheader Hpos Hall Hdec run. subst run.
  split; [now apply contains_bin_other_name|].
  rewrite (main_argv_opened opts filename (header ++ concat packets))
    by assumption.
  pose proof (main_whole_packets header packets decoded decode_message
                (wants_screen opts) Hheader Hpos Hall Hdec) as H.
  cbv zeta in H.
  destruct (main (inr tt) (inr (header ++ concat packets)) (inr tt)
              decode_message (wants_screen opts) initial_world) as [r w'].
  cbn [fst snd] in H. destruct H as (Hr & Hrest). subst r.
  cbn [outcome_of fst snd]. split; [reflexivity | exact Hrest].
Qed.

Lemma main_writes_header_then_rows_witness :
  let run := main_argv (Some [("--file", "tlm.bin")%string]) (inr tt)
               (fun name => if (name =? "tlm.bin")%string
                            then inr two_packet_source else inl OSError)
               (fun name => if (name =? "tlm.csv")%string
                            then inr tt else inl OSError)
               decode_pair initial_world in
  csv_filename "tlm.bin" <> "tlm.bin"%string
  /\ fst run = inr tt
  /\ fout_written (snd run)
     = [("TypeName.a, TypeName.b, " ++ newline)%string;
        ("1, 2, " ++ newline)%string;
        ("3, 4, " ++ newline)%string]
  /\ length (fout_written (snd run)) = 2 + 1
  /\ count_newlines (join (fout_written (snd run))) = 2 + 1.
Proof.
  destruct (main_writes_header_then_rows
              [("--file", "tlm.bin")%string] "tlm.bin"
              [x00; x00; x00; x08]
              [[x00; x00; x00; x01; x00; x00; x00; x02];
               [x00; x00; x00; x03; x00; x00; x00; x04]]
              [("TypeName"%string,
                Container [("a"%string, Scalar "1"); ("b"%string, Scalar "2")]);
               ("TypeName"%string,
                Container [("a"%string, Scalar "3"); ("b"%string, Scalar "4")])]
              (fun name => if (name =? "tlm.bin")%string
                           then inr two_packet_source else inl OSError)
              (fun name => if (name =? "tlm.csv")%string
                           then inr tt else inl OSError)
              decode_pair)
    as (Hname & Hrun & Hwritten & Hlength & Hlines).
  - reflexivity.
  - reflexivity.
  - reflexivity.
  - reflexivity.
  - reflexivity.
  - reflexivity.
  - reflexivity.
  - repeat constructor.
  - reflexivity.
  - split; [exact Hname|]. split; [exact Hrun|]. split; [exact Hwritten|].
    split; [exact Hlength|]. apply Hlines. reflexivity.
Defined.

(** X20. For a source file whose name holds [.bin], so that the CSV file
    is another file, cut short in the middle of a packet, and a decoder
    that accepts the whole packets and rejects the trailing fragment: the
    value lines of all the whole packets are written after the header,
    then the run ends with the decoder's exception on the fragment, both
    files left open. *)
Theorem main_truncated_source opts filename (header : bytes)
    (whole : list bytes) (fragment : bytes) decoded open_rb open_w
    decode_message e w :
  forallb (fun o => (fst o =? "-s")%string || (fst o =? "--file")%string)
          opts = true ->
  last_file opts = Some filename ->
  contains ".bin" filename = true ->
  open_rb filename = inr (header ++ concat whole ++ fragment) ->
  open_w (csv_filename filename) = inr tt ->
  length header = 4 ->
  Forall (fun packet => length packet = N.to_nat (from_bytes_big header))
         whole ->
  0 < length fragment < N.to_nat (from_bytes_big header) ->
  map decode_message whole = map inr decoded ->
  decode_message fragment = inl e ->
  let run := main_argv (Some opts) (inr tt) open_rb open_w decode_message w in
  csv_filename filename <> filename
  /\ fst run = inl (Aborted (Raised e))
  /\ fout_written (snd run)
     = fout_written w
       ++ match decoded with
          | [] => []
          | first :: _ => labels_line first :: map values_line decoded
          end
  /\ fin_handle (snd run) = Opened
  /\ fout_handle (snd run) = Opened.
Proof.
  intros Hopts Hfile Hbin Hsrc Hdst Hheader Hwhole Hfrag Hdec Hrej run.
  subst run. split; [now apply contains_bin_other_name|].
  rewrite (main_argv_opened opts filename (header ++ concat whole ++ fragment))
    by assumption.
  pose proof (main_stops_at_fragment header whole fragment decoded
                decode_message (wants_screen opts) e w
                Hheader Hwhole Hfrag Hdec Hrej) as H.
  cbv zeta in H.
  destruct (main (inr tt) (inr (header ++ concat whole ++ fragment)) (inr tt)
              decode_message (wants_screen opts) w) as [r w'].
  cbn [fst snd] in H. destruct H as (Hr & Hrest). subst r.
  cbn [outcome_of fst snd]. split; [reflexivity | exact Hrest].
Qed.

Lemma main_truncated_source_witness :
  let run := main_argv (Some [("--file", "tlm.bin")%string]) (inr tt)
               (fun name => if (name =? "tlm.bin")%string
                            then inr cut_short_source else inl OSError)
               (fun name => if (name =? "tlm.csv")%string
                            then inr tt else inl OSError)
               decode_pair initial_world in
  csv_filename "tlm.bin" <> "tlm.bin"%string
  /\ fst run = inl (Aborted (Raised DecodeError))
  /\ fout_written (snd run)
     = [("TypeName.a, TypeName.b, " ++ newline)%string;
        ("1, 2, " ++ newline)%string]
  /\ fin_handle (snd run) = Opened
  /\ fout_handle (snd run) = Opened.
Proof.
  apply (main_truncated_source [("--file", "tlm.bin")%string] "tlm.bin"
           [x00; x00; x00; x08]
           [[x00; x00; x00; x01; x00; x00; x00; x02]] [x09; x0a; x0b]
           [("TypeName"%string,
             Container [("a"%string, Scalar "1"); ("b"%string, Scalar "2")])]
           (fun name => if (name =? "tlm.bin")%string
                        then inr cut_short_source else inl OSError)
           (fun name => if (name =? "tlm.csv")%string
                        then inr tt else inl OSError)
           decode_pair DecodeError initial_world).
  - reflexivity.
  - reflexivity.
  - reflexivity.
  - reflexivity.
  - reflexivity.
  - reflexivity.
  - repeat constructor.
  - simpl. lia.
  - reflexivity.
  - reflexivity.
Defined.
